(** * piccolo_admin.media: identifier policy, local backend, reconciliation

    A shallow embedding of [piccolo_admin/media/base.py] and
    [piccolo_admin/media/local.py].

    Conventions of the embedding:
    - a Python [str] is a [string]; one [ascii] stands for one character
      (a code point below 256), so [String.length] is Python's [len];
    - a raised exception is the [Raise] outcome of the [result] monad;
    - [uuid.uuid4()] is the only source of randomness in the module; its
      rendering [str(uuid_)] is an explicit argument [uuid_];
    - the file system is a finite map from paths to files, [stdout], the
      answer typed at the [input] prompt and the calls made to the abstract
      [bulk_delete_files] are recorded as a trace of events. *)

From Stdlib Require Import ZArith Ascii String Strings.Byte DecimalString.
From stdpp Require Import base decidable option list gmap strings.

Local Open Scope string_scope.

(** ** Python [str] operations used by the module *)

Module PyStr.

Definition chr (c : ascii) : string := String c EmptyString.

Definition dot : ascii := "."%char.
Definition slash : ascii := "/"%char.
Definition newline : string := chr (ascii_of_nat 10).

(** [bool(s)] for a string: non-empty. *)
Definition truthy (s : string) : bool :=
  match s with EmptyString => false | String _ _ => true end.

(** [s.startswith(p)] *)
Fixpoint startswith (p s : string) : bool :=
  match p, s with
  | EmptyString, _ => true
  | String _ _, EmptyString => false
  | String a p', String b s' => Ascii.eqb a b && startswith p' s'
  end.

(** [sub in s] *)
Fixpoint contains (sub s : string) : bool :=
  startswith sub s ||
  match s with
  | EmptyString => false
  | String _ s' => contains sub s'
  end.

(** [s.endswith(c)] for a one-character suffix. *)
Fixpoint endswith (c : ascii) (s : string) : bool :=
  match s with
  | EmptyString => false
  | String a s' =>
      match s' with
      | EmptyString => Ascii.eqb a c
      | String _ _ => endswith c s'
      end
  end.

(** [s[:n]] for a non-negative [n]. *)
Fixpoint take_chars (n : nat) (s : string) : string :=
  match n, s with
  | O, _ => EmptyString
  | S _, EmptyString => EmptyString
  | S n', String a s' => String a (take_chars n' s')
  end.

(** [s.split(sep)] for a one-character separator. *)
Fixpoint split (sep : ascii) (s : string) : list string :=
  match s with
  | EmptyString => [EmptyString]
  | String a s' =>
      if Ascii.eqb a sep then EmptyString :: split sep s'
      else match split sep s' with
           | h :: t => String a h :: t
           | [] => [chr a]
           end
  end.

(** The cut at the last occurrence of [sep], if there is one. *)
Fixpoint rpartition (sep : ascii) (s : string) : option (string * string) :=
  match s with
  | EmptyString => None
  | String a s' =>
      match rpartition sep s' with
      | Some (l, r) => Some (String a l, r)
      | None => if Ascii.eqb a sep then Some (EmptyString, s') else None
      end
  end.

(** [s.rsplit(sep, 1)] for a one-character separator. *)
Definition rsplit1 (sep : ascii) (s : string) : list string :=
  match rpartition sep s with
  | Some (l, r) => [l; r]
  | None => [s]
  end.

(** [s.rstrip(c)] for a one-character set. *)
Fixpoint rstrip (c : ascii) (s : string) : string :=
  match s with
  | EmptyString => EmptyString
  | String a s' =>
      match rstrip c s' with
      | EmptyString => if Ascii.eqb a c then EmptyString else chr a
      | String _ _ as r => String a r
      end
  end.

(** [sep.join(l)] *)
Fixpoint join (sep : string) (l : list string) : string :=
  match l with
  | [] => EmptyString
  | [x] => x
  | x :: l' => x +:+ sep +:+ join sep l'
  end.

(** [c.lower()] on the code points below 256: the capitals A..Z and
    the accented capitals U+00C0..U+00DE (the sign U+00D7 apart)
    move up by 32. *)
Definition lower_char (c : ascii) : ascii :=
  let n := N_of_ascii c in
  if ((65 <=? n) && (n <=? 90) ||
      (192 <=? n) && (n <=? 222) && negb (n =? 215))%N
  then ascii_of_N (n + 32) else c.

(** [s.lower()] *)
Fixpoint lower (s : string) : string :=
  match s with
  | EmptyString => EmptyString
  | String a s' => String (lower_char a) (lower s')
  end.

(** [c * n] *)
Fixpoint repeat_char (c : ascii) (n : nat) : string :=
  match n with
  | O => EmptyString
  | S n' => String c (repeat_char c n')
  end.

(** [l[:n]] for a Python [int] [n]: a negative bound counts from the
    end of the list. *)
Definition slice_to {A} (n : Z) (l : list A) : list A :=
  if (n <? 0)%Z then List.firstn (length l - Z.to_nat (- n)) l
  else List.firstn (Z.to_nat n) l.

(** [str(n)] for a natural number. *)
Definition str_of_nat (n : nat) : string :=
  NilZero.string_of_uint (Nat.to_uint n).

End PyStr.

(** ** [pathlib] and [os.path] on a POSIX system *)

Module Posix.
Import PyStr.

(** A path component is kept by [pathlib] when it is neither empty nor
    the single dot. *)
Definition kept_part (p : string) : bool :=
  truthy p && negb (String.eqb p (chr dot)).

(** [pathlib.Path(s).parts] without the root. *)
Definition parts (s : string) : list string :=
  List.filter kept_part (split slash s).

(** [pathlib.Path(s).name]: the last component, or the empty string
    when there is none. *)
Definition path_name (s : string) : string :=
  List.last (parts s) EmptyString.

(** [os.path.join(a, b)] *)
Definition path_join (a b : string) : string :=
  if startswith (chr slash) b then b
  else if negb (truthy a) || endswith slash a then a +:+ b
  else a +:+ chr slash +:+ b.

End Posix.

(** ** Exceptions *)

Inductive exception : Type :=
  | ValueError (msg : string)
  | IOError (msg : string).

Inductive result (A : Type) : Type :=
  | Ok (a : A)
  | Raise (e : exception).

Arguments Ok {A} a.
Arguments Raise {A} e.

(** Sequencing stops at the first exception; the notations
    [x ← m; k] and [m ;; k] are those of the [MBind] class. *)
Global Instance result_bind : MBind result := λ A B k m,
  match m with
  | Ok a => k a
  | Raise e => Raise e
  end.

(** [raise e] under a condition, as in [if c: raise e]. *)
Definition raise_if (c : bool) (e : exception) : result unit :=
  if c then Raise e else Ok tt.

(** ** [base.py] *)

Module MediaBase.
Import PyStr Posix.

Definition AUDIO_EXTENSIONS : list string := ["mp3"; "wav"].
Definition DATA_EXTENSIONS : list string := ["csv"; "tsv"].
Definition DOCUMENT_EXTENSIONS : list string := ["pdf"].
Definition IMAGE_EXTENSIONS : list string :=
  ["gif"; "jpeg"; "jpg"; "png"; "svg"; "tif"; "webp"].
Definition TEXT_EXTENSIONS : list string := ["rtf"; "txt"].
Definition VIDEO_EXTENSIONS : list string := ["mov"; "mp4"; "webm"].

Definition ALLOWED_EXTENSIONS : list string :=
  AUDIO_EXTENSIONS ++ DATA_EXTENSIONS ++ DOCUMENT_EXTENSIONS ++
  IMAGE_EXTENSIONS ++ TEXT_EXTENSIONS ++ VIDEO_EXTENSIONS.

(** The characters of a string, one string per character. *)
Fixpoint chars (s : string) : list string :=
  match s with
  | EmptyString => []
  | String a s' => chr a :: chars s'
  end.

Definition ascii_letters : string :=
  "abcdefghijklmnopqrstuvwxyzABCDEFGHIJKLMNOPQRSTUVWXYZ".
Definition digits : string := "0123456789".

Definition ALLOWED_CHARACTERS : list string :=
  chars ascii_letters ++ chars digits ++ [" "; "-"; "_"; "."].

(** The two settings of a [MediaStorage] that [generate_file_id] reads.
    [None] is Python's [None]; a sequence of strings is a list. *)
Record MediaStorage : Type := {
  allowed_extensions : option (list string);
  allowed_characters : option (list string);
}.

(** [bool(x)] for an optional sequence: [None] and the empty sequence
    are false. *)
Definition configured (x : option (list string)) : bool :=
  match x with
  | Some (_ :: _) => true
  | _ => false
  end.

(** [x in seq] *)
Definition member (x : string) (seq : list string) : bool :=
  List.existsb (String.eqb x) seq.

(** [MediaStorage.__init__], for a column of an accepted type. *)
Definition init (extensions characters : option (list string))
  : MediaStorage :=
  {| allowed_extensions :=
       if configured extensions
       then Some (List.map lower (default [] extensions))
       else None;
     allowed_characters := characters |}.

(** The loop [for character in file_name] over the allowed characters:
    the first character that is not allowed raises. *)
Fixpoint check_characters (allowed : list string) (file_name : string)
  : result unit :=
  match file_name with
  | EmptyString => Ok tt
  | String character rest =>
      if negb (member (chr character) allowed)
      then Raise (ValueError
             ("'" +:+ chr character +:+ "' is not allowed in the filename."))
      else check_characters allowed rest
  end.

Definition generate_file_id (self : MediaStorage) (uuid_ : string)
  (file_name : string) : result string :=
  raise_if (negb (truthy file_name))
    (ValueError "The file name can't be empty.") ;;
  let file_name := path_name file_name in
  raise_if (startswith "." file_name)
    (ValueError "File names must not start with a period.") ;;
  raise_if (contains ".." file_name)
    (ValueError "File names must not contain '..'.") ;;
  (if configured (allowed_characters self)
   then check_characters (default [] (allowed_characters self)) file_name
   else Ok tt) ;;
  let components := rsplit1 dot file_name in
  match components with
  | [name; extension] =>
      (if configured (allowed_extensions self)
       then raise_if
              (negb (member (lower extension)
                       (default [] (allowed_extensions self))))
              (ValueError "This file type isn't allowed.")
       else Ok tt) ;;
      let name :=
        if (50 <? String.length file_name)%nat then take_chars 50 name
        else name in
      let file_id := name +:+ "-" +:+ uuid_ in
      let file_id :=
        if truthy extension then file_id +:+ "." +:+ extension
        else file_id in
      Ok file_id
  | _ => Raise (ValueError "The file has no extension.")
  end.

(** The two awaited calls of [get_unused_file_keys], [get_file_keys_from_db]
    and the backend's [get_file_keys], are its arguments here. A Python
    [set] of keys is a [gset string]; [list(...)] of a set enumerates it
    without repetition. *)
Definition get_unused_file_keys (db_keys disk_keys : list string)
  : list string :=
  elements ((list_to_set disk_keys : gset string) ∖ list_to_set db_keys).

(** What [delete_unused_files] does to the outside: lines printed, the
    prompt of [input], and the call of the backend's
    [bulk_delete_files]. *)
Inductive event : Type :=
  | Print (line : string)
  | Input (prompt : string)
  | BulkDeleteFiles (file_keys : list string).

(** [answer] is the line read by [input], should the prompt be reached;
    [auto or input(...) == 'y'] does not prompt when [auto] holds. *)
Definition delete_unused_files (db_keys disk_keys : list string)
  (number_shown : Z) (auto : bool) (answer : string) : list event :=
  let unused_file_keys := get_unused_file_keys db_keys disk_keys in
  let number_unused := length unused_file_keys in
  Print ("There are " +:+ str_of_nat number_unused +:+ " unused files.") ::
  match number_unused with
  | O => []
  | S _ =>
      Print "Here are some examples:" ::
      Print (join newline (slice_to number_shown unused_file_keys)) ::
      (if auto then [BulkDeleteFiles unused_file_keys]
       else
         Input "Would you like to delete them? Enter y to confirm" ::
         (if String.eqb answer "y"
          then [BulkDeleteFiles unused_file_keys]
          else []))
  end.

End MediaBase.

(** ** [local.py] *)

Module MediaLocal.
Import PyStr Posix MediaBase.

(** An octal literal of three digits, [0oabc]. *)
Definition octal (a b c : Z) : Z := ((a * 8 + b) * 8 + c)%Z.

(** A regular file: its bytes and its permission bits. *)
Record file : Type := {
  content : list byte;
  mode : Z;
}.

(** The media folder as a map from paths to files, with the process
    [umask] and the messages sent to [logger.error]. *)
Record world : Type := {
  files : gmap string file;
  umask : Z;
  logged : list string;
}.

Definition with_files (w : world) (fs : gmap string file) : world :=
  {| files := fs; umask := umask w; logged := logged w |}.

(** [os.path.exists(path)] *)
Definition path_exists (path : string) (w : world) : bool :=
  bool_decide (is_Some (files w !! path)).

(** [open(path, 'wb')]: an existing file is emptied, a new one is
    created with the bits [0o666 & ~umask]. *)
Definition open_wb (path : string) (w : world) : world :=
  let new_mode :=
    match files w !! path with
    | Some f => mode f
    | None => Z.land (octal 6 6 6) (Z.lnot (umask w))
    end in
  with_files w (<[path := {| content := []; mode := new_mode |}]> (files w)).

(** [shutil.copyfileobj(file, new_file)]: the bytes of the source are
    appended to the open file. *)
Definition copyfileobj (data : list byte) (path : string) (w : world)
  : world :=
  with_files w
    (alter (λ f, {| content := content f ++ data; mode := mode f |})
       path (files w)).

(** [os.chmod(path, m)] *)
Definition chmod (path : string) (m : Z) (w : world) : world :=
  with_files w
    (alter (λ f, {| content := content f; mode := m |}) path (files w)).

Definition logger_error (msg : string) (w : world) : world :=
  {| files := files w; umask := umask w; logged := logged w ++ [msg] |}.

(** The settings of a [LocalMediaStorage]; the executor only decides
    on which thread [save] runs. *)
Record LocalMediaStorage : Type := {
  storage : MediaStorage;
  media_path : string;
  file_permissions : option Z;
}.

(** [LocalMediaStorage.__init__] *)
Definition init (media_path : string)
  (allowed_extensions allowed_characters : option (list string))
  (file_permissions : option Z) : LocalMediaStorage :=
  {| storage := MediaBase.init allowed_extensions allowed_characters;
     media_path := media_path;
     file_permissions := file_permissions |}.

(** The default arguments of [__init__]. *)
Definition default_file_permissions : option Z := Some (octal 6 4 0).

Definition init_default (media_path : string) : LocalMediaStorage :=
  init media_path (Some ALLOWED_EXTENSIONS) (Some ALLOWED_CHARACTERS)
    default_file_permissions.

(** The inner function [save] of [store_file]. *)
Definition save (self : LocalMediaStorage) (file_id : string)
  (file : list byte) (w : world) : result unit * world :=
  let path := path_join (media_path self) file_id in
  if path_exists path w then
    let w := logger_error
      ("A file name clash has occurred - the chances are very " +:+
       "low. Could be malicious, or a serious bug.") w in
    (Raise (IOError "Unable to save the file"), w)
  else
    let w := open_wb path w in
    let w := copyfileobj file path w in
    let w :=
      match file_permissions self with
      | Some _ => chmod path (octal 6 4 0) w
      | None => w
      end in
    (Ok tt, w).

Definition store_file (self : LocalMediaStorage) (uuid_ : string)
  (file_name : string) (file : list byte) (w : world)
  : result string * world :=
  let file_name := path_name file_name in
  match generate_file_id (storage self) uuid_ file_name with
  | Raise e => (Raise e, w)
  | Ok file_id =>
      match save self file_id file w with
      | (Raise e, w) => (Raise e, w)
      | (Ok _, w) => (Ok file_id, w)
      end
  end.

Definition generate_file_url (file_id root_url : string) : string :=
  join "/" [rstrip slash root_url; file_id].

End MediaLocal.

(** ** The canonical rendering of a UUID

    [str(uuid.uuid4())] has 36 characters: lower-case hexadecimal digits
    in groups of 8, 4, 4, 4 and 12, with a hyphen between groups. *)

Module Uuid.

Definition is_hex (c : ascii) : bool :=
  let n := N_of_ascii c in
  ((48 <=? n) && (n <=? 57) || (97 <=? n) && (n <=? 102))%N.

Definition hyphen_position (i : nat) : bool :=
  bool_decide (i ∈ [8; 13; 18; 23]).

Definition char_ok (i : nat) (c : ascii) : bool :=
  if hyphen_position i then Ascii.eqb c "-" else is_hex c.

Fixpoint chars_ok (i : nat) (s : string) : bool :=
  match s with
  | EmptyString => true
  | String c s' => char_ok i c && chars_ok (S i) s'
  end.

Definition canonical (s : string) : bool :=
  (String.length s =? 36)%nat && chars_ok 0 s.

Definition test_uuid : string := "fd0125c7-8777-4976-83c1-81605d5ab155".

End Uuid.

(** ** Vocabulary of the statements *)

Module Policy.
Import PyStr Posix MediaBase.

(** Every character of [s] satisfies [P]. *)
Fixpoint all_chars (P : ascii → bool) (s : string) : bool :=
  match s with
  | EmptyString => true
  | String a s' => P a && all_chars P s'
  end.

(** The character [a] is one of the allowed characters. *)
Definition allowed_char (allowed : list string) (a : ascii) : bool :=
  member (chr a) allowed.

(** The name passes the character check of the storage: there is no
    check in force, or each character is allowed. *)
Definition characters_pass (self : MediaStorage) (name : string) : bool :=
  if configured (allowed_characters self)
  then all_chars (allowed_char (default [] (allowed_characters self))) name
  else true.

(** The extension passes the extension check of the storage. *)
Definition extension_passes (self : MediaStorage) (ext : string) : bool :=
  if configured (allowed_extensions self)
  then member (lower ext) (default [] (allowed_extensions self))
  else true.

(** The dot and extension that end a key; nothing for an empty
    extension. *)
Definition suffix (ext : string) : string :=
  if truthy ext then "." +:+ ext else EmptyString.

(** The base name as it enters the key, for a file name [file_name]. *)
Definition kept_base (file_name base : string) : string :=
  if (50 <? String.length file_name)%nat then take_chars 50 base else base.

(** The guards of [generate_file_id] that come before the split at the
    last dot. *)
Definition early_checks (self : MediaStorage) (file_name : string)
  : result unit :=
  raise_if (negb (truthy file_name))
    (ValueError "The file name can't be empty.") ;;
  raise_if (startswith "." (path_name file_name))
    (ValueError "File names must not start with a period.") ;;
  raise_if (contains ".." (path_name file_name))
    (ValueError "File names must not contain '..'.") ;;
  (if configured (allowed_characters self)
   then check_characters (default [] (allowed_characters self))
          (path_name file_name)
   else Ok tt).

(** The storage of the test suite: every default in force. *)
Definition default_storage : MediaStorage :=
  MediaBase.init (Some ALLOWED_EXTENSIONS) (Some ALLOWED_CHARACTERS).

End Policy.

Module LocalPolicy.
Import MediaLocal.

(** The permission bits [save] leaves on a new file. *)
Definition stored_mode (self : LocalMediaStorage) (w : world) : Z :=
  match file_permissions self with
  | Some _ => octal 6 4 0
  | None => Z.land (octal 6 6 6) (Z.lnot (umask w))
  end.

(** A second random id in canonical form. *)
Definition other_uuid : string := "3beac950-7721-46c9-9e7d-5e908ef51011".

(** An empty media folder under the usual umask [0o022]. *)
Definition empty_world : world :=
  {| files := ∅; umask := octal 0 2 2; logged := [] |}.

End LocalPolicy.

(** * Properties *)

Import PyStr Posix MediaBase Policy.

(** ** Facts about the string operations *)

Section StrFacts.

Local Arguments String.append !_ _ / : simpl nomatch.

Lemma app_cons a (s t : string) : String a s +:+ t = String a (s +:+ t).
Proof. reflexivity. Qed.

Lemma app_empty_r (s : string) : s +:+ EmptyString = s.
Proof. induction s as [|a s IH]; simpl; [reflexivity | by rewrite IH]. Qed.

Lemma app_assoc' (s t u : string) : (s +:+ t) +:+ u = s +:+ t +:+ u.
Proof. induction s as [|a s IH]; simpl; [reflexivity | by rewrite IH]. Qed.

Lemma length_app' (s t : string) :
  String.length (s +:+ t) = String.length s + String.length t.
Proof. induction s as [|a s IH]; simpl; [reflexivity | by rewrite IH]. Qed.

Lemma truthy_false (s : string) : truthy s = false ↔ s = EmptyString.
Proof. destruct s; simpl; split; congruence. Qed.

Lemma eqb_sym' (a b : ascii) : Ascii.eqb a b = Ascii.eqb b a.
Proof.
  destruct (Ascii.eqb_spec a b) as [->|Hne].
  - by rewrite Ascii.eqb_refl.
  - symmetry. apply Ascii.eqb_neq. congruence.
Qed.

(** *** [startswith] and [contains] with one and two dots *)

Lemma startswith_chr c a (s : string) :
  startswith (chr c) (String a s) = Ascii.eqb c a.
Proof. simpl. by rewrite andb_true_r. Qed.

Lemma startswith_chr_app c (s t : string) :
  startswith (chr c) (s +:+ t) =
  if truthy s then startswith (chr c) s else startswith (chr c) t.
Proof. destruct s; reflexivity. Qed.

Lemma contains_chr_cons c a (s : string) :
  contains (chr c) (String a s) = Ascii.eqb c a || contains (chr c) s.
Proof. simpl. by rewrite andb_true_r. Qed.

Lemma contains_chr_app c (s t : string) :
  contains (chr c) (s +:+ t) = contains (chr c) s || contains (chr c) t.
Proof.
  induction s as [|a s IH].
  - destruct t; reflexivity.
  - rewrite app_cons, !contains_chr_cons, IH. by rewrite orb_assoc.
Qed.

Lemma startswith_dot_cons a (s : string) :
  startswith "." (String a s) = Ascii.eqb dot a.
Proof. apply (startswith_chr dot). Qed.

Lemma startswith_dot_app (s t : string) :
  startswith "." (s +:+ t) =
  if truthy s then startswith "." s else startswith "." t.
Proof. apply (startswith_chr_app dot). Qed.

Lemma contains_dot_cons a (s : string) :
  contains "." (String a s) = Ascii.eqb dot a || contains "." s.
Proof. apply (contains_chr_cons dot). Qed.

Lemma contains_dd_cons a (s : string) :
  contains ".." (String a s) =
  Ascii.eqb dot a && startswith "." s || contains ".." s.
Proof. reflexivity. Qed.

Lemma endswith_cons c a (s : string) :
  endswith c (String a s) = if truthy s then endswith c s else Ascii.eqb a c.
Proof. destruct s; reflexivity. Qed.

(** Two adjacent dots in a concatenation lie in the left part, in the
    right part, or across the seam. *)
Lemma contains_dd_app (s t : string) :
  contains ".." (s +:+ t) =
  contains ".." s || endswith dot s && startswith "." t || contains ".." t.
Proof.
  induction s as [|a s IH].
  - reflexivity.
  - rewrite app_cons, !contains_dd_cons, IH, endswith_cons.
    rewrite startswith_dot_app, (eqb_sym' a dot).
    destruct s as [|b s]; simpl truthy; cbv iota.
    + change (contains ".." EmptyString) with false.
      change (startswith "." EmptyString) with false.
      change (endswith dot EmptyString) with false.
      destruct (Ascii.eqb dot a), (startswith "." t),
        (contains ".." t); reflexivity.
    + destruct (Ascii.eqb dot a), (startswith "." (String b s)),
        (contains ".." (String b s)), (endswith dot (String b s)),
        (startswith "." t), (contains ".." t); reflexivity.
Qed.

Lemma no_dot_no_dd (s : string) :
  contains "." s = false → contains ".." s = false.
Proof.
  induction s as [|a s IH]; [reflexivity|].
  rewrite contains_dot_cons, contains_dd_cons.
  intros [Ha Hs]%orb_false_elim. rewrite Ha. simpl. by apply IH.
Qed.

Lemma no_dot_endswith (s : string) :
  contains "." s = false → endswith dot s = false.
Proof.
  induction s as [|a s IH]; [reflexivity|].
  rewrite contains_dot_cons, endswith_cons.
  intros [Ha Hs]%orb_false_elim.
  destruct s; simpl truthy; cbv iota; [by rewrite eqb_sym' | by apply IH].
Qed.

Lemma no_dot_startswith (s : string) :
  contains "." s = false → startswith "." s = false.
Proof.
  destruct s as [|a s]; [reflexivity|].
  rewrite contains_dot_cons, startswith_dot_cons.
  by intros [Ha _]%orb_false_elim.
Qed.

(** *** [take_chars] *)

Lemma take_chars_prefix n (s : string) :
  ∃ rest, s = take_chars n s +:+ rest.
Proof.
  revert n. induction s as [|a s IH]; intros [|n]; simpl.
  - by exists EmptyString.
  - by exists EmptyString.
  - by exists (String a s).
  - destruct (IH n) as [rest Hrest]. exists rest. by rewrite <- Hrest.
Qed.

Lemma take_chars_length n (s : string) :
  String.length (take_chars n s) = Nat.min n (String.length s).
Proof.
  revert n. induction s as [|a s IH]; intros [|n]; simpl; try reflexivity.
  by rewrite IH.
Qed.

Lemma take_chars_all n (s : string) :
  (String.length s ≤ n)%nat → take_chars n s = s.
Proof.
  revert n. induction s as [|a s IH]; intros [|n]; simpl; try reflexivity.
  - lia.
  - intros Hn. rewrite IH; [reflexivity | lia].
Qed.

(** *** [rpartition] cuts at the last separator *)

Lemma rpartition_None sep (s : string) :
  rpartition sep s = None → contains (chr sep) s = false.
Proof.
  induction s as [|a s IH]; [reflexivity|].
  simpl rpartition. rewrite contains_chr_cons.
  destruct (rpartition sep s) as [[l r]|]; [discriminate|].
  rewrite (eqb_sym' sep a).
  destruct (Ascii.eqb a sep); [discriminate|]. intros _. by apply IH.
Qed.

Lemma rpartition_Some sep (s l r : string) :
  rpartition sep s = Some (l, r) →
  s = l +:+ String sep r ∧ contains (chr sep) r = false.
Proof.
  revert l. induction s as [|a s IH]; intros l; [discriminate|].
  simpl rpartition.
  destruct (rpartition sep s) as [[l' r']|] eqn:Hs.
  - intros [= <- <-]. destruct (IH l' eq_refl) as [-> Hr]. by split.
  - destruct (Ascii.eqb_spec a sep) as [->|]; [|discriminate].
    intros [= <- <-]. split; [reflexivity|]. by apply rpartition_None.
Qed.

Lemma rpartition_app sep (l r : string) :
  contains (chr sep) r = false →
  rpartition sep (l +:+ String sep r) = Some (l, r).
Proof.
  intros Hr.
  assert (rpartition sep r = None) as Hnone.
  { clear l. induction r as [|a r IH]; [reflexivity|].
    rewrite contains_chr_cons in Hr.
    apply orb_false_elim in Hr as [Ha Hr].
    simpl. rewrite (IH Hr). rewrite eqb_sym' in Ha. by rewrite Ha. }
  induction l as [|a l IH]; simpl.
  - by rewrite Hnone, Ascii.eqb_refl.
  - by rewrite IH.
Qed.

(** *** [rstrip] drops exactly the run of separators at the end *)

Lemma rstrip_stem c (s : string) :
  ∃ n, s = rstrip c s +:+ repeat_char c n ∧ endswith c (rstrip c s) = false.
Proof.
  induction s as [|a s (n & Hs & Hend)].
  - by exists 0.
  - simpl rstrip. destruct (rstrip c s) as [|b q] eqn:Hq.
    + destruct (Ascii.eqb_spec a c) as [->|Hne].
      * exists (S n). split; [|reflexivity]. simpl. by rewrite Hs at 1.
      * exists n. split; [simpl; by rewrite Hs at 1|].
        simpl. by apply Ascii.eqb_neq.
    + exists n. split; [simpl; by rewrite Hs at 1|].
      by rewrite endswith_cons.
Qed.

Lemma rstrip_app_sep c (s : string) :
  rstrip c (s +:+ chr c) = rstrip c s.
Proof.
  induction s as [|a s IH].
  - simpl. by rewrite Ascii.eqb_refl.
  - rewrite app_cons. simpl rstrip. by rewrite IH.
Qed.

End StrFacts.

(** ** Facts about [generate_file_id] *)

Section GenerateFileId.

Variable self : MediaStorage.
Variable uuid_ : string.

Local Arguments startswith : simpl never.
Local Arguments contains : simpl never.
Local Arguments take_chars : simpl never.
Local Arguments path_name : simpl never.
Local Arguments rpartition : simpl never.
Local Arguments member : simpl never.
Local Arguments Nat.ltb : simpl never.

Lemma path_name_empty : path_name EmptyString = EmptyString.
Proof. reflexivity. Qed.

Lemma path_name_truthy (f : string) :
  path_name f ≠ EmptyString → truthy f = true.
Proof. destruct f; [intros []; reflexivity | reflexivity]. Qed.

Lemma check_characters_Ok allowed (s : string) :
  all_chars (allowed_char allowed) s = true →
  check_characters allowed s = Ok tt.
Proof.
  induction s as [|a s IH]; simpl; [reflexivity|].
  intros [Ha Hs]%andb_prop. unfold allowed_char in Ha. rewrite Ha. simpl.
  by apply IH.
Qed.

Lemma check_characters_Ok_inv allowed (s : string) u :
  check_characters allowed s = Ok u →
  all_chars (allowed_char allowed) s = true.
Proof.
  induction s as [|a s IH]; simpl; [reflexivity|].
  unfold allowed_char at 1.
  destruct (member (chr a) allowed); simpl; [apply IH | discriminate].
Qed.

Lemma check_characters_Raise allowed (pre post : string) c :
  all_chars (allowed_char allowed) pre = true →
  allowed_char allowed c = false →
  check_characters allowed (pre +:+ String c post) =
  Raise (ValueError ("'" +:+ chr c +:+ "' is not allowed in the filename.")).
Proof.
  intros Hpre Hc. induction pre as [|a pre IH].
  - change (EmptyString +:+ String c post) with (String c post).
    simpl. unfold allowed_char in Hc. by rewrite Hc.
  - rewrite app_cons. simpl in Hpre |- *.
    apply andb_prop in Hpre as [Ha Hpre]. unfold allowed_char in Ha.
    rewrite Ha. simpl. by apply IH.
Qed.

Lemma generate_file_id_split (f : string) :
  generate_file_id self uuid_ f =
  (early_checks self f ;;
   match rpartition dot (path_name f) with
   | Some (name, extension) =>
       raise_if (negb (extension_passes self extension))
         (ValueError "This file type isn't allowed.") ;;
       Ok (kept_base (path_name f) name +:+ "-" +:+ uuid_ +:+
           suffix extension)
   | None => Raise (ValueError "The file has no extension.")
   end).
Proof.
  unfold generate_file_id, early_checks, rsplit1, extension_passes,
    kept_base, suffix.
  destruct (truthy f); simpl; [|reflexivity].
  destruct (startswith "." (path_name f)); simpl; [reflexivity|].
  destruct (contains ".." (path_name f)); simpl; [reflexivity|].
  destruct (if configured (allowed_characters self) then _ else _);
    simpl; [|reflexivity].
  destruct (rpartition dot (path_name f)) as [[name ext]|];
    simpl; [|reflexivity].
  destruct (configured (allowed_extensions self)); simpl.
  - destruct (member _ _); simpl; [|reflexivity].
    destruct (truthy ext); simpl;
      by rewrite ?app_assoc', ?app_empty_r.
  - destruct (truthy ext); simpl;
      by rewrite ?app_assoc', ?app_empty_r.
Qed.

Lemma early_checks_Ok (f : string) :
  path_name f ≠ EmptyString →
  startswith "." (path_name f) = false →
  contains ".." (path_name f) = false →
  characters_pass self (path_name f) = true →
  early_checks self f = Ok tt.
Proof.
  intros Hne Hdot Hdd Hch. unfold early_checks, characters_pass in *.
  rewrite (path_name_truthy f Hne), Hdot, Hdd. simpl.
  destruct (configured (allowed_characters self)); [|reflexivity].
  by apply check_characters_Ok.
Qed.

Lemma early_checks_Ok_inv (f : string) u :
  early_checks self f = Ok u →
  truthy f = true ∧
  startswith "." (path_name f) = false ∧
  contains ".." (path_name f) = false ∧
  characters_pass self (path_name f) = true.
Proof.
  unfold early_checks, characters_pass.
  destruct (truthy f); simpl; [|discriminate].
  destruct (startswith "." (path_name f)); simpl; [discriminate|].
  destruct (contains ".." (path_name f)); simpl; [discriminate|].
  destruct (configured (allowed_characters self)).
  - destruct (check_characters _ _) as [[]|] eqn:Hc; simpl; [|discriminate].
    intros _. repeat split. by eapply check_characters_Ok_inv.
  - intros _. by repeat split.
Qed.

(** A returned key determines how the call went. *)
Lemma generate_file_id_Ok_inv (f key : string) :
  generate_file_id self uuid_ f = Ok key →
  ∃ name ext,
    startswith "." (path_name f) = false ∧
    contains ".." (path_name f) = false ∧
    characters_pass self (path_name f) = true ∧
    rpartition dot (path_name f) = Some (name, ext) ∧
    extension_passes self ext = true ∧
    key = kept_base (path_name f) name +:+ "-" +:+ uuid_ +:+ suffix ext.
Proof.
  rewrite generate_file_id_split.
  destruct (early_checks self f) as [[]|] eqn:He; simpl; [|discriminate].
  apply early_checks_Ok_inv in He as (_ & Hdot & Hdd & Hch).
  destruct (rpartition dot (path_name f)) as [[name ext]|];
    simpl; [|discriminate].
  destruct (extension_passes self ext) eqn:Hext; simpl; [|discriminate].
  intros [= <-]. by exists name, ext.
Qed.

End GenerateFileId.

(** ** The identifier policy *)

Section IdentifierPolicy.

Local Arguments startswith : simpl never.
Local Arguments contains : simpl never.
Local Arguments take_chars : simpl never.
Local Arguments path_name : simpl never.
Local Arguments rpartition : simpl never.
Local Arguments member : simpl never.
Local Arguments Nat.ltb : simpl never.
Local Arguments String.append : simpl never.

Lemma kept_base_prefix (file_name base : string) :
  ∃ rest, base = kept_base file_name base +:+ rest.
Proof.
  unfold kept_base. destruct (_ <? _)%nat.
  - apply take_chars_prefix.
  - exists EmptyString. by rewrite app_empty_r.
Qed.

Lemma kept_base_cons (file_name : string) a (base : string) :
  ∃ tail, kept_base file_name (String a base) = String a tail.
Proof. unfold kept_base. destruct (_ <? _)%nat; by eexists. Qed.

Lemma uuid_chars_no_dot i (s : string) :
  Uuid.chars_ok i s = true → contains "." s = false.
Proof.
  revert i. induction s as [|a s IH]; intros i; [reflexivity|].
  simpl. intros [Ha Hs]%andb_prop.
  rewrite contains_dot_cons, (IH _ Hs), orb_false_r.
  destruct (Ascii.eqb_spec dot a) as [<-|]; [|reflexivity].
  unfold Uuid.char_ok in Ha. by destruct (Uuid.hyphen_position i).
Qed.

Lemma canonical_no_dot (u : string) :
  Uuid.canonical u = true → contains "." u = false.
Proof.
  unfold Uuid.canonical. intros [_ H]%andb_prop.
  by apply uuid_chars_no_dot in H.
Qed.

Lemma suffix_no_dd (ext : string) :
  contains "." ext = false → contains ".." (suffix ext) = false.
Proof.
  intros Hext. unfold suffix. destruct (truthy ext); [|reflexivity].
  change ("." +:+ ext) with (String dot ext).
  rewrite contains_dd_cons, (no_dot_startswith _ Hext),
    (no_dot_no_dd _ Hext).
  reflexivity.
Qed.

(** C1. A returned key is the base name, a hyphen, the random id and
    the extension behind its dot, where the file name is the base name,
    a dot and the extension (the cut is at the last dot). The base name
    enters the key cut to its first 50 characters exactly when the whole
    file name is longer than 50 characters, and unchanged otherwise; the
    extension is never cut. With the id fixed, 200 letters a followed by
    .jpg give 50 letters a, the id and .jpg. *)
Theorem C1_truncation :
  (∀ (self : MediaStorage) (uuid_ f key : string),
     generate_file_id self uuid_ f = Ok key →
     ∃ base ext kept : string,
       path_name f = base +:+ "." +:+ ext ∧
       contains "." ext = false ∧
       key = kept +:+ "-" +:+ uuid_ +:+ suffix ext ∧
       ((50 < String.length (path_name f))%nat →
          kept = take_chars 50 base ∧
          (∃ rest, base = kept +:+ rest) ∧
          String.length kept = Nat.min 50 (String.length base)) ∧
       ((String.length (path_name f) ≤ 50)%nat → kept = base)) ∧
  generate_file_id default_storage Uuid.test_uuid
    (repeat_char "a" 200 +:+ ".jpg") =
  Ok ("aaaaaaaaaaaaaaaaaaaaaaaaaaaaaaaaaaaaaaaaaaaaaaaaaa" +:+
      "-fd0125c7-8777-4976-83c1-81605d5ab155.jpg").
Proof.
  split; [|by vm_compute].
  intros self uuid_ f key Hkey.
  apply generate_file_id_Ok_inv in Hkey
    as (name & ext & _ & _ & _ & Hcut & _ & ->).
  apply rpartition_Some in Hcut as [Hname Hext].
  exists name, ext, (kept_base (path_name f) name).
  split; [exact Hname|]. split; [exact Hext|]. split; [reflexivity|].
  unfold kept_base. split.
  - intros Hlong. apply Nat.ltb_lt in Hlong. rewrite Hlong.
    split; [reflexivity|].
    split; [apply take_chars_prefix | apply take_chars_length].
  - intros Hshort. apply Nat.ltb_ge in Hshort. by rewrite Hshort.
Qed.

(** C2, as the code has it. The two dots are looked for in the final
    path segment, after the test for a leading dot: a file name whose
    final segment does not start with a dot and contains two adjacent
    dots is refused with the double-dot error, whatever extensions and
    characters are allowed. *)
Theorem C2_double_dot_in_name (self : MediaStorage) (uuid_ f : string) :
  startswith "." (path_name f) = false →
  contains ".." (path_name f) = true →
  generate_file_id self uuid_ f =
  Raise (ValueError "File names must not contain '..'.").
Proof.
  intros Hdot Hdd. unfold generate_file_id.
  rewrite path_name_truthy, Hdot, Hdd; [reflexivity|].
  intros Hempty. by rewrite Hempty in Hdd.
Qed.

(** C8. A returned key does not start with a dot and has no two adjacent
    dots, for every random id in canonical form. *)
Theorem C8_key_is_safe (self : MediaStorage) (uuid_ f key : string) :
  Uuid.canonical uuid_ = true →
  generate_file_id self uuid_ f = Ok key →
  startswith "." key = false ∧ contains ".." key = false.
Proof.
  intros Huuid%canonical_no_dot Hkey.
  apply generate_file_id_Ok_inv in Hkey
    as (name & ext & Hdot & Hdd & _ & Hcut & _ & ->).
  apply rpartition_Some in Hcut as [Hname Hext].
  rewrite Hname in Hdot, Hdd.
  rewrite startswith_dot_app in Hdot.
  destruct name as [|a name]; [discriminate Hdot|]. simpl truthy in Hdot.
  rewrite contains_dd_app in Hdd.
  apply orb_false_elim in Hdd as [Hdd _].
  apply orb_false_elim in Hdd as [Hdd _].
  split.
  - destruct (kept_base_cons (path_name f) a name) as [tail ->].
    rewrite startswith_dot_cons in Hdot.
    by rewrite app_cons, startswith_dot_cons.
  - destruct (kept_base_prefix (path_name f) (String a name))
      as [rest Hrest].
    rewrite Hrest, contains_dd_app in Hdd.
    apply orb_false_elim in Hdd as [Hdd _].
    apply orb_false_elim in Hdd as [Hkept _].
    rewrite contains_dd_app, Hkept.
    change ("-" +:+ uuid_ +:+ suffix ext)
      with (String "-" (uuid_ +:+ suffix ext)).
    rewrite contains_dd_cons, contains_dd_app.
    rewrite (no_dot_no_dd _ Huuid), (no_dot_endswith _ Huuid),
      (suffix_no_dd _ Hext).
    by rewrite andb_false_r.
Qed.

(** C7, as the code has it. An empty sequence of allowed characters
    switches the check off, like [None]. With a non-empty sequence, a
    file name whose final segment does not start with a dot, has no two
    adjacent dots and has a character outside the sequence is refused
    with the error that names the first such character, wherever the
    character stands and whatever the extension is. *)
Theorem C7_disallowed_character (self : MediaStorage) (uuid_ f : string)
  (allowed : list string) (pre post : string) (c : ascii) :
  allowed_characters self = Some allowed →
  allowed ≠ [] →
  startswith "." (path_name f) = false →
  contains ".." (path_name f) = false →
  path_name f = pre +:+ String c post →
  all_chars (allowed_char allowed) pre = true →
  allowed_char allowed c = false →
  generate_file_id self uuid_ f =
  Raise (ValueError ("'" +:+ chr c +:+ "' is not allowed in the filename.")).
Proof.
  intros Hallowed Hne Hdot Hdd Hname Hpre Hc. unfold generate_file_id.
  rewrite path_name_truthy, Hdot, Hdd, Hallowed.
  - destruct allowed as [|x allowed]; [done|]. simpl configured.
    simpl default. cbv iota.
    rewrite Hname, (check_characters_Raise _ _ _ _ Hpre Hc). reflexivity.
  - rewrite Hname. by destruct pre.
Qed.

Lemma rpartition_terminal_dot (base : string) :
  rpartition dot (base +:+ ".") = Some (base, EmptyString).
Proof. by apply (rpartition_app dot base EmptyString). Qed.

(** C10, as the code has it. A file name whose final segment ends in a
    dot and passes the earlier checks is split into its base and an
    empty extension, so the missing-extension error is never raised.
    When a non-empty sequence of allowed extensions is in force and the
    empty string is not one of them, the call is refused as a file type
    that is not allowed; when no extension check is in force, the key
    is the base name (cut as usual), a hyphen and the random id, with
    no dot and no extension behind it. *)
Theorem C10_terminal_dot (self : MediaStorage) (uuid_ f base : string) :
  path_name f = base +:+ "." →
  startswith "." (path_name f) = false →
  contains ".." (path_name f) = false →
  characters_pass self (path_name f) = true →
  generate_file_id self uuid_ f ≠
    Raise (ValueError "The file has no extension.") ∧
  (configured (allowed_extensions self) = true →
   member EmptyString (default [] (allowed_extensions self)) = false →
   generate_file_id self uuid_ f =
   Raise (ValueError "This file type isn't allowed.")) ∧
  (configured (allowed_extensions self) = false →
   generate_file_id self uuid_ f =
   Ok (kept_base (path_name f) base +:+ "-" +:+ uuid_)).
Proof.
  intros Hname Hdot Hdd Hch.
  assert (path_name f ≠ EmptyString) as Hne.
  { rewrite Hname. by destruct base. }
  assert (rpartition dot (path_name f) = Some (base, EmptyString)) as Hcut.
  { rewrite Hname. apply rpartition_terminal_dot. }
  rewrite generate_file_id_split,
    (early_checks_Ok self f Hne Hdot Hdd Hch), Hcut.
  unfold extension_passes, suffix. simpl.
  split; [|split].
  - destruct (configured (allowed_extensions self));
      [destruct (member _ _)|]; discriminate.
  - intros -> ->. reflexivity.
  - intros ->. simpl. by rewrite app_empty_r.
Qed.

End IdentifierPolicy.

(** *** Instances and counterexamples for the identifier policy *)

Lemma C1_witness :
  ∃ base ext kept : string,
    path_name "bulb.jpg" = base +:+ "." +:+ ext ∧
    contains "." ext = false ∧
    "bulb-fd0125c7-8777-4976-83c1-81605d5ab155.jpg" =
      kept +:+ "-" +:+ Uuid.test_uuid +:+ suffix ext ∧
    ((50 < String.length (path_name "bulb.jpg"))%nat →
       kept = take_chars 50 base ∧
       (∃ rest, base = kept +:+ rest) ∧
       String.length kept = Nat.min 50 (String.length base)) ∧
    ((String.length (path_name "bulb.jpg") ≤ 50)%nat → kept = base).
Proof.
  exact (proj1 C1_truncation default_storage Uuid.test_uuid "bulb.jpg"
           "bulb-fd0125c7-8777-4976-83c1-81605d5ab155.jpg" eq_refl).
Defined.

(** The claim C2 fails on a name whose two dots sit in a directory part,
    and on a name that starts with the two dots. *)
Lemma C2_counterexample :
  (contains ".." "../a.jpg" = true ∧
   generate_file_id default_storage Uuid.test_uuid "../a.jpg" =
   Ok "a-fd0125c7-8777-4976-83c1-81605d5ab155.jpg") ∧
  (contains ".." "..a.jpg" = true ∧
   generate_file_id default_storage Uuid.test_uuid "..a.jpg" =
   Raise (ValueError "File names must not start with a period.")).
Proof. by vm_compute. Qed.

Lemma C2_witness :
  generate_file_id default_storage Uuid.test_uuid "test..file.jpeg" =
  Raise (ValueError "File names must not contain '..'.").
Proof. apply C2_double_dot_in_name; reflexivity. Defined.

(** The claim C7 fails for an allowed-character sequence that is empty:
    no character is allowed, and the name is accepted. *)
Lemma C7_counterexample :
  allowed_characters (MediaBase.init None (Some [])) = Some [] ∧
  allowed_char [] "@" = false ∧
  generate_file_id (MediaBase.init None (Some [])) Uuid.test_uuid "a@b.jpg" =
  Ok "a@b-fd0125c7-8777-4976-83c1-81605d5ab155.jpg".
Proof. by vm_compute. Qed.

Lemma C7_witness :
  generate_file_id default_storage Uuid.test_uuid "ab@c.jpg" =
  Raise (ValueError "'@' is not allowed in the filename.").
Proof.
  apply (C7_disallowed_character default_storage Uuid.test_uuid "ab@c.jpg"
           ALLOWED_CHARACTERS "ab" "c.jpg" "@");
    solve [reflexivity | discriminate].
Defined.

Lemma C8_witness :
  startswith "." "bulb-fd0125c7-8777-4976-83c1-81605d5ab155.jpg" = false ∧
  contains ".." "bulb-fd0125c7-8777-4976-83c1-81605d5ab155.jpg" = false.
Proof.
  apply (C8_key_is_safe default_storage Uuid.test_uuid "bulb.jpg");
    reflexivity.
Defined.

(** The claim C10 fails for a sequence of allowed extensions that holds
    the empty string: the extension check is in force and the key is
    returned. *)
Lemma C10_counterexample :
  configured
    (allowed_extensions
       (MediaBase.init (Some [EmptyString; "jpg"]) (Some ALLOWED_CHARACTERS)))
  = true ∧
  generate_file_id
    (MediaBase.init (Some [EmptyString; "jpg"]) (Some ALLOWED_CHARACTERS))
    Uuid.test_uuid "photo." =
  Ok "photo-fd0125c7-8777-4976-83c1-81605d5ab155".
Proof. by vm_compute. Qed.

Lemma C10_witness :
  generate_file_id default_storage Uuid.test_uuid "photo." =
    Raise (ValueError "This file type isn't allowed.") ∧
  generate_file_id (MediaBase.init None (Some ALLOWED_CHARACTERS))
    Uuid.test_uuid "photo." =
    Ok "photo-fd0125c7-8777-4976-83c1-81605d5ab155".
Proof.
  split.
  - apply (C10_terminal_dot default_storage Uuid.test_uuid "photo." "photo");
      reflexivity.
  - apply (C10_terminal_dot (MediaBase.init None (Some ALLOWED_CHARACTERS))
             Uuid.test_uuid "photo." "photo"); reflexivity.
Defined.

(** ** The local backend *)

Section LocalBackend.
Import MediaLocal.

Variable self : LocalMediaStorage.

Lemma path_exists_true (path : string) (w : world) (old : file) :
  files w !! path = Some old → path_exists path w = true.
Proof. intros H. unfold path_exists. apply bool_decide_eq_true. eauto. Qed.

Lemma path_exists_false (path : string) (w : world) :
  files w !! path = None → path_exists path w = false.
Proof.
  intros H. unfold path_exists. apply bool_decide_eq_false.
  rewrite H. by intros [? ?].
Qed.

(** On a free path [save] leaves a file with the bytes of the source;
    its permission bits are [0o640] as soon as some permissions are
    set on the storage, and those of [open] otherwise. *)
Lemma save_new (file_id : string) (data : list byte) (w : world) :
  files w !! path_join (media_path self) file_id = None →
  ∃ w',
    save self file_id data w = (Ok tt, w') ∧
    files w' !! path_join (media_path self) file_id =
    Some {| content := data;
            mode := match file_permissions self with
                    | Some _ => octal 6 4 0
                    | None => Z.land (octal 6 6 6) (Z.lnot (umask w))
                    end |}.
Proof.
  intros Hfree. unfold save. rewrite (path_exists_false _ _ Hfree).
  eexists. split; [reflexivity|].
  destruct (file_permissions self); simpl;
    rewrite ?lookup_alter_eq, lookup_insert_eq, Hfree; reflexivity.
Qed.

(** C6. When a file already stands at the path of the fresh key,
    [store_file] raises the I/O error and the files are what they
    were: nothing is opened or copied. *)
Theorem C6_collision (uuid_ f : string) (data : list byte) (w : world)
  (key : string) (old : file) :
  generate_file_id (storage self) uuid_ (path_name f) = Ok key →
  files w !! path_join (media_path self) key = Some old →
  ∃ w',
    store_file self uuid_ f data w =
      (Raise (IOError "Unable to save the file"), w') ∧
    files w' = files w.
Proof.
  intros Hkey Hold. unfold store_file, save.
  rewrite Hkey, (path_exists_true _ _ _ Hold).
  eexists. split; reflexivity.
Qed.

(** C9. The URL of a key is the root URL without its trailing slashes,
    a slash and the key; a slash more or less at the end of the root
    changes nothing. *)
Theorem C9_generate_file_url (k r : string) :
  (∃ (stem : string) (n : nat),
     r = stem +:+ repeat_char "/" n ∧
     endswith slash stem = false ∧
     generate_file_url k r = stem +:+ "/" +:+ k) ∧
  generate_file_url k (r +:+ "/") = generate_file_url k r ∧
  generate_file_url k "/media/" = "/media/" +:+ k ∧
  generate_file_url k "/media" = "/media/" +:+ k.
Proof.
  split; [|split; [|split; reflexivity]].
  - exists (rstrip slash r).
    destruct (rstrip_stem slash r) as (n & Hr & Hend).
    exists n. by repeat split.
  - unfold generate_file_url. by rewrite rstrip_app_sep.
Qed.

End LocalBackend.

(** C3 at a storage set up with the permissions [0o600]: the stored file
    holds the bytes of the source and its permission bits are [0o640],
    not the [0o600] asked for. *)
Theorem C3_file_permissions_ignored :
  let self := MediaLocal.init "/srv/piccolo-media"
                (Some ALLOWED_EXTENSIONS) (Some ALLOWED_CHARACTERS)
                (Some (MediaLocal.octal 6 0 0)) in
  let w := {| MediaLocal.files := ∅;
              MediaLocal.umask := MediaLocal.octal 0 2 2;
              MediaLocal.logged := [] |} in
  let key := "bulb-fd0125c7-8777-4976-83c1-81605d5ab155.jpg" in
  ∃ w',
    MediaLocal.store_file self Uuid.test_uuid "bulb.jpg" [x42; x4d]%byte w =
      (Ok key, w') ∧
    MediaLocal.files w' !! ("/srv/piccolo-media/" +:+ key) =
      Some {| MediaLocal.content := [x42; x4d]%byte;
              MediaLocal.mode := MediaLocal.octal 6 4 0 |} ∧
    MediaLocal.octal 6 4 0 ≠ MediaLocal.octal 6 0 0.
Proof.
  intros self w key.
  destruct (save_new self key [x42; x4d]%byte w) as (w' & Hsave & Hfile).
  { reflexivity. }
  exists w'. split; [|split].
  - unfold MediaLocal.store_file.
    change (generate_file_id (MediaLocal.storage self) Uuid.test_uuid
              (path_name "bulb.jpg")) with (Ok (A:=string) key).
    cbv iota beta. by rewrite Hsave.
  - exact Hfile.
  - discriminate.
Qed.

Lemma C6_witness :
  let self := MediaLocal.init_default "/srv/piccolo-media" in
  let old := {| MediaLocal.content := [x01]%byte;
                MediaLocal.mode := MediaLocal.octal 6 4 0 |} in
  let w := {| MediaLocal.files :=
                {[ "/srv/piccolo-media/bulb-fd0125c7-8777-4976-83c1-81605d5ab155.jpg"
                   := old ]};
              MediaLocal.umask := MediaLocal.octal 0 2 2;
              MediaLocal.logged := [] |} in
  ∃ w',
    MediaLocal.store_file self Uuid.test_uuid "bulb.jpg" [x42; x4d]%byte w =
      (Raise (IOError "Unable to save the file"), w') ∧
    MediaLocal.files w' = MediaLocal.files w.
Proof.
  intros self old w.
  apply (C6_collision self Uuid.test_uuid "bulb.jpg" [x42; x4d]%byte w
           "bulb-fd0125c7-8777-4976-83c1-81605d5ab155.jpg" old).
  - reflexivity.
  - apply lookup_singleton_eq.
Defined.

(** ** Reconciliation *)

Section Reconciliation.

Variables db_keys disk_keys : list string.

Lemma elem_of_unused (k : string) :
  k ∈ get_unused_file_keys db_keys disk_keys ↔ k ∈ disk_keys ∧ k ∉ db_keys.
Proof.
  unfold get_unused_file_keys.
  rewrite elem_of_elements, elem_of_difference, !elem_of_list_to_set.
  reflexivity.
Qed.

(** C4. The unused keys are the keys on disk that the database does not
    hold, each listed once; when both sides hold the same keys there is
    none. *)
Theorem C4_unused_is_difference :
  (∀ k, k ∈ get_unused_file_keys db_keys disk_keys ↔
        k ∈ disk_keys ∧ k ∉ db_keys) ∧
  NoDup (get_unused_file_keys db_keys disk_keys) ∧
  ((∀ k, k ∈ disk_keys ↔ k ∈ db_keys) →
   get_unused_file_keys db_keys disk_keys = []).
Proof.
  split; [exact elem_of_unused|]. split.
  - apply NoDup_elements.
  - intros Hsame.
    destruct (get_unused_file_keys db_keys disk_keys) as [|k l] eqn:Hl;
      [reflexivity|].
    assert (k ∈ get_unused_file_keys db_keys disk_keys) as Hk.
    { rewrite Hl. apply list_elem_of_here. }
    apply elem_of_unused in Hk as [Hdisk Hdb]. by apply Hsame in Hdisk.
Qed.

Variable number_shown : Z.
Variable auto : bool.
Variable answer : string.

(** C5. The backend is asked to delete only the unused keys, only when
    there are some, and only when [auto] is set or the answer at the
    prompt is y; under these conditions it is asked. With no unused key
    the run prints the count 0 and does nothing else. *)
Theorem C5_deletion_is_gated :
  let unused := get_unused_file_keys db_keys disk_keys in
  let trace :=
    delete_unused_files db_keys disk_keys number_shown auto answer in
  (∀ keys, BulkDeleteFiles keys ∈ trace →
     keys = unused ∧ unused ≠ [] ∧ (auto = true ∨ answer = "y")) ∧
  (unused ≠ [] → auto = true ∨ answer = "y" →
     BulkDeleteFiles unused ∈ trace) ∧
  (unused = [] → trace = [Print "There are 0 unused files."]).
Proof.
  intros unused trace. subst trace. unfold delete_unused_files.
  fold unused. destruct unused as [|k l] eqn:Hunused; simpl length.
  - split; [|split].
    + intros keys Hin. apply list_elem_of_singleton in Hin. discriminate.
    + intros Hne. by destruct Hne.
    + reflexivity.
  - cbv iota. split; [|split].
    + intros keys Hin.
      destruct auto, (String.eqb_spec answer "y");
        repeat (apply elem_of_cons in Hin as [Hin|Hin];
                [try discriminate Hin|]);
        try (by apply elem_of_nil in Hin);
        injection Hin as ->; repeat split; auto.
    + intros _ Hgate.
      destruct auto, (String.eqb_spec answer "y");
        repeat first [apply list_elem_of_here | apply list_elem_of_further].
      by destruct Hgate.
    + discriminate.
Qed.

End Reconciliation.

Lemma C4_witness :
  get_unused_file_keys ["a"; "b"] ["b"; "a"; "b"] = [].
Proof.
  apply (C4_unused_is_difference ["a"; "b"] ["b"; "a"; "b"]).
  intros k. rewrite !elem_of_cons, !elem_of_nil. tauto.
Defined.

Lemma C5_witness :
  BulkDeleteFiles (get_unused_file_keys ["a"; "b"] ["a"; "b"; "c"]) ∈
    delete_unused_files ["a"; "b"] ["a"; "b"; "c"] 10 false "y" ∧
  delete_unused_files ["a"; "b"] ["a"; "b"] 10 true "y" =
    [Print "There are 0 unused files."].
Proof.
  split.
  - apply (C5_deletion_is_gated ["a"; "b"] ["a"; "b"; "c"] 10 false "y").
    + by vm_compute.
    + by right.
  - apply (C5_deletion_is_gated ["a"; "b"] ["a"; "b"] 10 true "y").
    by vm_compute.
Defined.

(** * Further properties of the module *)

(** ** More facts about strings and paths *)

Section MoreStrFacts.

Local Arguments String.append !_ _ / : simpl nomatch.

Lemma app_inv_tail' (s1 s2 t : string) : s1 +:+ t = s2 +:+ t → s1 = s2.
Proof.
  revert s2. induction s1 as [|a s1 IH]; intros [|b s2] H; simpl in H.
  - reflexivity.
  - apply (f_equal String.length) in H. simpl in H.
    rewrite length_app' in H. lia.
  - apply (f_equal String.length) in H. simpl in H.
    rewrite length_app' in H. lia.
  - injection H as -> H. f_equal. by apply IH.
Qed.

Lemma lower_length (s : string) :
  String.length (lower s) = String.length s.
Proof. induction s as [|a s IH]; simpl; [reflexivity | by rewrite IH]. Qed.

Lemma member_In (x : string) (l : list string) :
  member x l = true ↔ In x l.
Proof.
  unfold member. rewrite List.existsb_exists. split.
  - intros (y & Hin & Heq). by apply String.eqb_eq in Heq as ->.
  - intros H. exists x. split; [exact H | apply String.eqb_refl].
Qed.

Lemma rpartition_no_sep sep (s : string) :
  contains (chr sep) s = false → rpartition sep s = None.
Proof.
  induction s as [|a s IH]; [reflexivity|].
  rewrite contains_chr_cons. intros [Ha Hs]%orb_false_elim.
  simpl. rewrite (IH Hs). rewrite eqb_sym' in Ha. by rewrite Ha.
Qed.

Lemma contains_chr_take c n (s : string) :
  contains (chr c) s = false → contains (chr c) (take_chars n s) = false.
Proof.
  destruct (take_chars_prefix n s) as [rest H]. intros Hs.
  rewrite H, contains_chr_app in Hs. by apply orb_false_elim in Hs as [? _].
Qed.

(** *** [split] *)

Lemma split_nonempty sep (s : string) : ∃ h t, split sep s = h :: t.
Proof.
  destruct s as [|a s]; simpl; [by eexists _, _|].
  destruct (Ascii.eqb a sep); [by eexists _, _|].
  destruct (split sep s); by eexists _, _.
Qed.

Lemma split_no_sep sep (s p : string) :
  In p (split sep s) → contains (chr sep) p = false.
Proof.
  revert p. induction s as [|a s IH]; intros p; simpl.
  - by intros [<-|[]].
  - destruct (Ascii.eqb_spec a sep) as [->|Hne].
    + intros [<-|Hin]; [reflexivity | by apply IH].
    + destruct (split_nonempty sep s) as (h & t & Hs). rewrite Hs in IH |- *.
      assert (Ascii.eqb sep a = false) as Ha
        by (apply Ascii.eqb_neq; congruence).
      intros [<-|Hin].
      * by rewrite contains_chr_cons, Ha, (IH h (or_introl eq_refl)).
      * apply IH. by right.
Qed.

Lemma split_single sep (s : string) :
  contains (chr sep) s = false → split sep s = [s].
Proof.
  induction s as [|a s IH]; [reflexivity|].
  rewrite contains_chr_cons. intros [Ha Hs]%orb_false_elim.
  simpl. rewrite eqb_sym' in Ha. by rewrite Ha, (IH Hs).
Qed.

Lemma split_app_sep sep (a b : string) :
  split sep (a +:+ String sep b) = (split sep a ++ split sep b)%list.
Proof.
  induction a as [|c a IH]; simpl.
  - by rewrite Ascii.eqb_refl.
  - rewrite IH. destruct (Ascii.eqb c sep); [reflexivity|].
    by destruct (split_nonempty sep a) as (h & t & ->).
Qed.

(** *** [path_name] *)

Lemma last_default_or_In {A} (l : list A) (d : A) :
  List.last l d = d ∨ In (List.last l d) l.
Proof.
  induction l as [|x l IH]; [by left|].
  destruct l as [|y l]; [right; by left|].
  destruct IH as [IH|IH]; [left | right; right]; exact IH.
Qed.

(** The final segment is empty, or it is a kept component without a
    slash. *)
Lemma path_name_cases (f : string) :
  path_name f = EmptyString ∨
  kept_part (path_name f) = true ∧ contains "/" (path_name f) = false.
Proof.
  unfold path_name, parts.
  destruct (last_default_or_In
              (List.filter kept_part (split slash f)) EmptyString)
    as [H|H]; [by left|].
  right. apply List.filter_In in H as [Hin Hkept].
  split; [exact Hkept | by apply (split_no_sep slash f)].
Qed.

Lemma path_name_self (p : string) :
  kept_part p = true → contains "/" p = false → path_name p = p.
Proof.
  intros Hkept Hslash. unfold path_name, parts.
  rewrite (split_single slash p Hslash). simpl. by rewrite Hkept.
Qed.

Lemma path_name_idem (f : string) : path_name (path_name f) = path_name f.
Proof.
  destruct (path_name_cases f) as [->|[Hkept Hslash]]; [reflexivity|].
  by apply path_name_self.
Qed.

Lemma path_name_app_slash (a k : string) :
  kept_part k = true → contains "/" k = false →
  path_name (a +:+ "/" +:+ k) = k.
Proof.
  intros Hkept Hslash. unfold path_name, parts.
  change (a +:+ "/" +:+ k) with (a +:+ String slash k).
  rewrite split_app_sep, (split_single slash k Hslash), List.filter_app.
  simpl List.filter at 2. rewrite Hkept. apply List.last_last.
Qed.

Lemma endswith_app_chr c (s : string) :
  endswith c s = true → ∃ s', s = s' +:+ chr c.
Proof.
  induction s as [|a s IH]; [discriminate|].
  rewrite endswith_cons. destruct s as [|b s]; simpl truthy; cbv iota.
  - intros ->%Ascii.eqb_eq. by exists EmptyString.
  - intros [s' ->]%IH. by exists (String a s').
Qed.

End MoreStrFacts.

(** ** More on the identifier policy *)

Section PolicyExtras.

Local Arguments startswith : simpl never.
Local Arguments contains : simpl never.
Local Arguments take_chars : simpl never.
Local Arguments path_name : simpl never.
Local Arguments rpartition : simpl never.
Local Arguments member : simpl never.
Local Arguments Nat.ltb : simpl never.
Local Arguments String.append : simpl never.

Variable self : MediaStorage.
Variable uuid_ : string.

(** What a returned key is made of. *)
Lemma generate_file_id_shape (f key : string) :
  generate_file_id self uuid_ f = Ok key →
  ∃ (name ext : string) (a : ascii) (tail : string),
    path_name f = name +:+ "." +:+ ext ∧
    contains "." ext = false ∧
    name = String a tail ∧
    Ascii.eqb dot a = false ∧
    characters_pass self (path_name f) = true ∧
    extension_passes self ext = true ∧
    key = kept_base (path_name f) name +:+ "-" +:+ uuid_ +:+ suffix ext.
Proof.
  intros Hkey.
  apply generate_file_id_Ok_inv in Hkey
    as (name & ext & Hdot & _ & Hch & Hcut & Hext & ->).
  apply rpartition_Some in Hcut as [Hname Hnodot].
  rewrite Hname, startswith_dot_app in Hdot.
  destruct name as [|a tail]; [discriminate Hdot|]. simpl truthy in Hdot.
  rewrite startswith_dot_cons in Hdot.
  by exists (String a tail), ext, a, tail.
Qed.

(** The outcome once the final segment is known to be [base], a dot and
    a dot-free [ext], and the early checks pass. *)
Lemma generate_file_id_cut' (u f base ext : string) :
  path_name f = base +:+ "." +:+ ext →
  contains "." ext = false →
  startswith "." (path_name f) = false →
  contains ".." (path_name f) = false →
  characters_pass self (path_name f) = true →
  generate_file_id self u f =
  (raise_if (negb (extension_passes self ext))
     (ValueError "This file type isn't allowed.") ;;
   Ok (kept_base (path_name f) base +:+ "-" +:+ u +:+ suffix ext)).
Proof.
  intros Hname Hext Hdot Hdd Hch.
  assert (path_name f ≠ EmptyString) as Hne.
  { rewrite Hname. by destruct base. }
  assert (rpartition dot (path_name f) = Some (base, ext)) as Hcut.
  { rewrite Hname. by apply (rpartition_app dot base ext). }
  by rewrite generate_file_id_split,
    (early_checks_Ok self f Hne Hdot Hdd Hch), Hcut.
Qed.

Lemma generate_file_id_cut (f base ext : string) :
  path_name f = base +:+ "." +:+ ext →
  contains "." ext = false →
  startswith "." (path_name f) = false →
  contains ".." (path_name f) = false →
  characters_pass self (path_name f) = true →
  generate_file_id self uuid_ f =
  (raise_if (negb (extension_passes self ext))
     (ValueError "This file type isn't allowed.") ;;
   Ok (kept_base (path_name f) base +:+ "-" +:+ uuid_ +:+ suffix ext)).
Proof. apply generate_file_id_cut'. Qed.

(** Without a dot in the final segment there is nothing to split. *)
Lemma generate_file_id_no_dot (f : string) :
  truthy f = true →
  contains "." (path_name f) = false →
  characters_pass self (path_name f) = true →
  generate_file_id self uuid_ f =
  Raise (ValueError "The file has no extension.").
Proof.
  intros Hf Hnodot Hch. rewrite generate_file_id_split.
  unfold early_checks. unfold characters_pass in Hch.
  rewrite Hf, (no_dot_startswith _ Hnodot), (no_dot_no_dd _ Hnodot).
  rewrite (rpartition_no_sep dot _ Hnodot). simpl.
  destruct (configured (allowed_characters self)); [|reflexivity].
  by rewrite (check_characters_Ok _ _ Hch).
Qed.

(** X1. A name whose final segment starts with a dot is refused as a
    hidden file, before any other check on the segment. *)
Theorem X1_hidden_file (f : string) :
  startswith "." (path_name f) = true →
  generate_file_id self uuid_ f =
  Raise (ValueError "File names must not start with a period.").
Proof.
  intros Hdot. unfold generate_file_id.
  rewrite path_name_truthy, Hdot; [reflexivity|].
  intros Hempty. by rewrite Hempty in Hdot.
Qed.

(** X2. A non-empty name whose final segment has no dot at all and
    passes the character check is refused for its missing extension;
    this includes names with an empty final segment, such as a lone
    slash. *)
Theorem X2_missing_extension (f : string) :
  truthy f = true →
  contains "." (path_name f) = false →
  characters_pass self (path_name f) = true →
  generate_file_id self uuid_ f =
  Raise (ValueError "The file has no extension.").
Proof. apply generate_file_id_no_dot. Qed.

(** X3. Every name that meets the checks is accepted: a final segment
    [base.ext] that does not start with a dot, has no two adjacent dots,
    passes the character check and whose extension passes the extension
    check yields the key made of the kept base, a hyphen, the random id
    and the extension. *)
Theorem X3_accepts_valid_names (f base ext : string) :
  path_name f = base +:+ "." +:+ ext →
  contains "." ext = false →
  startswith "." (path_name f) = false →
  contains ".." (path_name f) = false →
  characters_pass self (path_name f) = true →
  extension_passes self ext = true →
  generate_file_id self uuid_ f =
  Ok (kept_base (path_name f) base +:+ "-" +:+ uuid_ +:+ suffix ext).
Proof.
  intros Hname Hext Hdot Hdd Hch Hpass.
  by rewrite (generate_file_id_cut f base ext Hname Hext Hdot Hdd Hch), Hpass.
Qed.

(** X4. A name that passes the checks on its final segment but whose
    extension, put in lower case, is not among the allowed extensions in
    force is refused as a file type that is not allowed. *)
Theorem X4_extension_rejected (f base ext : string) :
  path_name f = base +:+ "." +:+ ext →
  contains "." ext = false →
  startswith "." (path_name f) = false →
  contains ".." (path_name f) = false →
  characters_pass self (path_name f) = true →
  extension_passes self ext = false →
  generate_file_id self uuid_ f =
  Raise (ValueError "This file type isn't allowed.").
Proof.
  intros Hname Hext Hdot Hdd Hch Hpass.
  by rewrite (generate_file_id_cut f base ext Hname Hext Hdot Hdd Hch), Hpass.
Qed.

(** Two calls for one file name that return the same key were given
    the same random id. *)
Lemma generate_file_id_uuid_inj (uuid' f key : string) :
  generate_file_id self uuid_ f = Ok key →
  generate_file_id self uuid' f = Ok key →
  uuid_ = uuid'.
Proof.
  intros H1 H2.
  apply generate_file_id_Ok_inv in H1
    as (name & ext & Hdot & Hdd & Hch & Hcut & Hext & ->).
  rewrite (generate_file_id_cut' uuid' f name ext) in H2.
  - rewrite Hext in H2. simpl in H2. injection H2 as H2.
    apply String.app_inj in H2.
    change ("-" +:+ uuid' +:+ suffix ext)
      with (String "-" (uuid' +:+ suffix ext)) in H2.
    change ("-" +:+ uuid_ +:+ suffix ext)
      with (String "-" (uuid_ +:+ suffix ext)) in H2.
    injection H2 as H2. symmetry. by apply app_inv_tail' in H2.
  - by apply rpartition_Some in Hcut as [? ?].
  - by apply rpartition_Some in Hcut as [? ?].
  - exact Hdot.
  - exact Hdd.
  - exact Hch.
Qed.

(** X8. The random id decides the key: for one file name, two calls
    that return the same key were given the same id, so distinct ids
    give distinct keys. *)
Theorem X8_uuid_injective (uuid' f key : string) :
  generate_file_id self uuid_ f = Ok key →
  generate_file_id self uuid' f = Ok key →
  uuid_ = uuid'.
Proof. apply generate_file_id_uuid_inj. Qed.

End PolicyExtras.

Section KeyExtras.

Local Arguments startswith : simpl never.
Local Arguments contains : simpl never.
Local Arguments take_chars : simpl never.
Local Arguments path_name : simpl never.
Local Arguments rpartition : simpl never.
Local Arguments member : simpl never.
Local Arguments Nat.ltb : simpl never.
Local Arguments String.append : simpl never.

Lemma contains_slash_app (s t : string) :
  contains "/" (s +:+ t) = contains "/" s || contains "/" t.
Proof. apply (contains_chr_app slash). Qed.

Lemma contains_slash_cons a (s : string) :
  contains "/" (String a s) = Ascii.eqb slash a || contains "/" s.
Proof. apply (contains_chr_cons slash). Qed.

Lemma contains_slash_take n (s : string) :
  contains "/" s = false → contains "/" (take_chars n s) = false.
Proof. apply (contains_chr_take slash). Qed.

Lemma uuid_chars_exclude c i (s : string) :
  Uuid.is_hex c = false → c ≠ "-"%char →
  Uuid.chars_ok i s = true → contains (chr c) s = false.
Proof.
  intros Hhex Hc. revert i. induction s as [|a s IH]; intros i; [reflexivity|].
  simpl. intros [Ha Hs]%andb_prop.
  rewrite contains_chr_cons, (IH _ Hs), orb_false_r.
  destruct (Ascii.eqb_spec c a) as [<-|]; [|reflexivity].
  unfold Uuid.char_ok in Ha. destruct (Uuid.hyphen_position i).
  - by apply Ascii.eqb_eq in Ha.
  - congruence.
Qed.

Lemma canonical_length (u : string) :
  Uuid.canonical u = true → String.length u = 36.
Proof. unfold Uuid.canonical. by intros [H%Nat.eqb_eq _]%andb_prop. Qed.

Lemma kept_base_length (file_name base rest : string) :
  file_name = base +:+ rest →
  (String.length (kept_base file_name base) ≤ 50)%nat.
Proof.
  intros ->. unfold kept_base.
  destruct (Nat.ltb_spec 50 (String.length (base +:+ rest))) as [H|H].
  - rewrite take_chars_length. lia.
  - rewrite length_app' in H. lia.
Qed.

Lemma suffix_length (ext : string) :
  (String.length (suffix ext) ≤ 1 + String.length ext)%nat.
Proof. unfold suffix. destruct ext; simpl; lia. Qed.

(** X5. The extension check does not see case, neither in the file name
    nor in the configured list: with a list of extensions given to
    [__init__], a name that passes the other checks and whose extension
    equals one of the list up to case is accepted, and the key carries
    the extension as it was typed. *)
Theorem X5_extension_case_insensitive (exts : list string)
  (characters : option (list string)) (uuid_ f base ext e : string) :
  path_name f = base +:+ "." +:+ ext →
  contains "." ext = false →
  startswith "." (path_name f) = false →
  contains ".." (path_name f) = false →
  characters_pass (MediaBase.init (Some exts) characters) (path_name f)
    = true →
  In e exts →
  lower ext = lower e →
  generate_file_id (MediaBase.init (Some exts) characters) uuid_ f =
  Ok (kept_base (path_name f) base +:+ "-" +:+ uuid_ +:+ suffix ext).
Proof.
  intros Hname Hext Hdot Hdd Hch He Hlower.
  rewrite (generate_file_id_cut' _ uuid_ f base ext Hname Hext Hdot Hdd Hch).
  assert (extension_passes (MediaBase.init (Some exts) characters) ext = true)
    as ->; [|reflexivity].
  unfold extension_passes, MediaBase.init. simpl allowed_extensions.
  destruct exts as [|x exts]; [destruct He|].
  simpl configured. cbv iota. simpl configured. cbv iota. simpl default.
  apply member_In. rewrite Hlower. exact (List.in_map lower _ _ He).
Qed.

(** X6. Keys are bounded in length. With a list of allowed extensions in
    force whose entries have at most [m] characters, and a random id in
    canonical form, a returned key has at most [88 + m] characters: 50
    for the base, the hyphen, 36 for the id, the dot and the extension. *)
Theorem X6_key_length (self : MediaStorage) (uuid_ f key : string)
  (exts : list string) (m : nat) :
  allowed_extensions self = Some exts →
  exts ≠ [] →
  Forall (λ e, (String.length e ≤ m)%nat) exts →
  Uuid.canonical uuid_ = true →
  generate_file_id self uuid_ f = Ok key →
  (String.length key ≤ 88 + m)%nat.
Proof.
  intros Hexts Hne Hall Huuid%canonical_length Hkey.
  apply generate_file_id_shape in Hkey
    as (name & ext & a & tail & Hname & _ & _ & _ & _ & Hpass & ->).
  unfold extension_passes in Hpass. rewrite Hexts in Hpass.
  destruct exts as [|x exts]; [done|]. simpl in Hpass.
  apply member_In in Hpass.
  rewrite List.Forall_forall in Hall. apply Hall in Hpass.
  rewrite lower_length in Hpass.
  pose proof (kept_base_length _ _ _ Hname) as Hkept.
  pose proof (suffix_length ext) as Hsuf.
  rewrite !length_app', Huuid.
  change (String.length "-") with 1. lia.
Qed.

(** A returned key has no slash, is kept by [pathlib] as a component and
    is not an absolute path. *)
Lemma key_segment (self : MediaStorage) (uuid_ f key : string) :
  Uuid.canonical uuid_ = true →
  generate_file_id self uuid_ f = Ok key →
  contains "/" key = false ∧
  kept_part key = true ∧
  startswith (chr slash) key = false.
Proof.
  intros Huuid Hkey.
  apply generate_file_id_shape in Hkey
    as (name & ext & a & tail & Hname & _ & -> & Ha & _ & _ & ->).
  destruct (path_name_cases f) as [Hempty|[_ Hslash]].
  { rewrite Hname in Hempty. discriminate Hempty. }
  rewrite Hname, contains_slash_app in Hslash.
  apply orb_false_elim in Hslash as [Hbase Hext].
  change ("." +:+ ext) with (String dot ext) in Hext.
  rewrite contains_slash_cons in Hext.
  apply orb_false_elim in Hext as [_ Hext].
  assert (contains "/" uuid_ = false) as Hu.
  { unfold Uuid.canonical in Huuid. apply andb_prop in Huuid as [_ Huuid].
    by apply (uuid_chars_exclude slash) in Huuid. }
  set (key := kept_base (path_name f) (String a tail) +:+
              "-" +:+ uuid_ +:+ suffix ext).
  assert (contains "/" key = false) as Hkeyslash.
  { subst key. rewrite contains_slash_app.
    change ("-" +:+ uuid_ +:+ suffix ext)
      with (String "-" (uuid_ +:+ suffix ext)).
    rewrite contains_slash_cons, contains_slash_app, Hu.
    assert (contains "/" (kept_base (path_name f) (String a tail)) = false)
      as ->.
    { unfold kept_base. destruct (_ <? _)%nat;
        [by apply contains_slash_take | exact Hbase]. }
    unfold suffix. destruct (truthy ext); [|reflexivity].
    change ("." +:+ ext) with (String dot ext).
    by rewrite contains_slash_cons, Hext. }
  assert (∃ r, key = String a r) as [r Hr].
  { subst key. destruct (kept_base_cons (path_name f) a tail) as [t ->].
    rewrite app_cons. by eexists. }
  split; [exact Hkeyslash|]. split.
  - rewrite Hr. unfold kept_part, chr. simpl.
    rewrite (eqb_sym' a dot), Ha. reflexivity.
  - rewrite Hr in Hkeyslash |- *. rewrite contains_slash_cons in Hkeyslash.
    apply orb_false_elim in Hkeyslash as [Hs _]. by rewrite startswith_chr.
Qed.

Lemma path_name_path_join (media_path key : string) :
  contains "/" key = false →
  kept_part key = true →
  startswith (chr slash) key = false →
  path_name (path_join media_path key) = key.
Proof.
  intros Hslash Hkept Habs. unfold path_join. rewrite Habs.
  destruct media_path as [|b mp].
  - by apply path_name_self.
  - simpl truthy. simpl negb. rewrite orb_false_l.
    destruct (endswith slash (String b mp)) eqn:Hend.
    + apply endswith_app_chr in Hend as [s' ->].
      rewrite app_assoc'. by apply path_name_app_slash.
    + by apply path_name_app_slash.
Qed.

(** X7. A returned key is a single path segment: it has no slash, it is
    its own final segment, and the path under which [store_file] puts the
    file has the key as its final segment, whatever the media path is. *)
Theorem X7_key_is_path_segment (self : MediaStorage)
  (uuid_ f key media_path : string) :
  Uuid.canonical uuid_ = true →
  generate_file_id self uuid_ f = Ok key →
  contains "/" key = false ∧
  path_name key = key ∧
  path_name (path_join media_path key) = key.
Proof.
  intros Huuid Hkey.
  destruct (key_segment self uuid_ f key Huuid Hkey)
    as (Hslash & Hkept & Habs).
  split; [exact Hslash|]. split.
  - by apply path_name_self.
  - by apply path_name_path_join.
Qed.

(** X9. [store_file] strips the directories before [generate_file_id]
    strips them again. The second stripping changes nothing, so for a
    name with a non-empty final segment both calls agree; for a non-empty
    name with an empty final segment the stripped call reports an empty
    name where the direct call reports a missing extension. *)
Theorem X9_double_stripping (self : MediaStorage) (uuid_ f : string) :
  path_name (path_name f) = path_name f ∧
  (path_name f ≠ EmptyString →
   generate_file_id self uuid_ (path_name f) =
   generate_file_id self uuid_ f) ∧
  (truthy f = true → path_name f = EmptyString →
   generate_file_id self uuid_ (path_name f) =
     Raise (ValueError "The file name can't be empty.") ∧
   generate_file_id self uuid_ f =
     Raise (ValueError "The file has no extension.")).
Proof.
  split; [apply path_name_idem|]. split.
  - intros Hne. unfold generate_file_id.
    rewrite path_name_idem, (path_name_truthy f Hne).
    assert (truthy (path_name f) = true) as ->; [|reflexivity].
    by destruct (path_name f).
  - intros Hf Hempty. split.
    + by rewrite Hempty.
    + apply generate_file_id_no_dot; [exact Hf|..]; rewrite Hempty.
      * reflexivity.
      * unfold characters_pass. by destruct (configured _).
Qed.

End KeyExtras.

Section KeyCharacters.

Local Arguments startswith : simpl never.
Local Arguments contains : simpl never.
Local Arguments take_chars : simpl never.
Local Arguments path_name : simpl never.
Local Arguments member : simpl never.
Local Arguments Nat.ltb : simpl never.
Local Arguments String.append : simpl never.

Lemma all_chars_app (P : ascii → bool) (s t : string) :
  all_chars P (s +:+ t) = all_chars P s && all_chars P t.
Proof.
  induction s as [|a s IH]; [reflexivity|].
  rewrite app_cons. simpl. by rewrite IH, andb_assoc.
Qed.

Lemma all_chars_take (P : ascii → bool) n (s : string) :
  all_chars P s = true → all_chars P (take_chars n s) = true.
Proof.
  destruct (take_chars_prefix n s) as [rest H]. intros Hs.
  rewrite H, all_chars_app in Hs. by apply andb_prop in Hs as [? _].
Qed.

Lemma all_chars_impl (P Q : ascii → bool) (s : string) :
  (∀ c, P c = true → Q c = true) →
  all_chars P s = true → all_chars Q s = true.
Proof.
  intros HPQ. induction s as [|a s IH]; [reflexivity|]. simpl.
  intros [Ha Hs]%andb_prop. by rewrite (HPQ _ Ha), (IH Hs).
Qed.

Lemma uuid_chars_all i (s : string) :
  Uuid.chars_ok i s = true →
  all_chars (λ c, Ascii.eqb c "-" || Uuid.is_hex c) s = true.
Proof.
  revert i. induction s as [|a s IH]; intros i; [reflexivity|]. simpl.
  intros [Ha Hs]%andb_prop. rewrite (IH _ Hs), andb_true_r.
  unfold Uuid.char_ok in Ha.
  destruct (Uuid.hyphen_position i); rewrite Ha; [reflexivity|].
  apply orb_true_r.
Qed.

(** X10. With a non-empty sequence of allowed characters in force and a
    random id in canonical form, every character of a returned key is an
    allowed character, a hyphen or a lower-case hexadecimal digit: what
    the character check keeps out of the name stays out of the key. *)
Theorem X10_key_characters (self : MediaStorage) (uuid_ f key : string)
  (allowed : list string) :
  allowed_characters self = Some allowed →
  allowed ≠ [] →
  Uuid.canonical uuid_ = true →
  generate_file_id self uuid_ f = Ok key →
  all_chars
    (λ c, allowed_char allowed c || (Ascii.eqb c "-" || Uuid.is_hex c))
    key = true.
Proof.
  intros Hallowed Hne Huuid Hkey.
  apply generate_file_id_shape in Hkey
    as (name & ext & a & tail & Hname & _ & _ & _ & Hch & _ & ->).
  unfold characters_pass in Hch. rewrite Hallowed in Hch.
  destruct allowed as [|x allowed]; [done|]. simpl in Hch.
  rewrite Hname, all_chars_app in Hch.
  apply andb_prop in Hch as [Hbase Hext].
  set (Q := λ c, allowed_char (x :: allowed) c ||
                 (Ascii.eqb c "-" || Uuid.is_hex c)).
  assert (∀ s, all_chars (allowed_char (x :: allowed)) s = true →
               all_chars Q s = true) as Hweak.
  { intros s. apply all_chars_impl. intros c Hc. unfold Q. by rewrite Hc. }
  rewrite !all_chars_app.
  apply andb_true_intro; split; [|apply andb_true_intro; split;
                                   [|apply andb_true_intro; split]].
  - apply Hweak. unfold kept_base.
    destruct (_ <? _)%nat; [by apply all_chars_take | exact Hbase].
  - simpl. unfold Q. by destruct (allowed_char _ _).
  - unfold Uuid.canonical in Huuid. apply andb_prop in Huuid as [_ Huuid].
    apply uuid_chars_all in Huuid. revert Huuid. apply all_chars_impl.
    intros c Hc. unfold Q. rewrite Hc. apply orb_true_r.
  - unfold suffix. destruct (truthy ext); [|reflexivity]. by apply Hweak.
Qed.

(** X16. The URL of a returned key ends in the key: the final segment
    of [generate_file_url] is the key, for every root URL. *)
Theorem X16_url_ends_with_key (self : MediaStorage)
  (uuid_ f key root_url : string) :
  Uuid.canonical uuid_ = true →
  generate_file_id self uuid_ f = Ok key →
  path_name (MediaLocal.generate_file_url key root_url) = key.
Proof.
  intros Huuid Hkey.
  destruct (key_segment self uuid_ f key Huuid Hkey)
    as (Hslash & Hkept & _).
  unfold MediaLocal.generate_file_url. simpl join.
  by apply path_name_app_slash.
Qed.

End KeyCharacters.

(** ** More on the local backend *)

Section LocalExtras.
Import MediaLocal LocalPolicy.

Local Arguments path_name : simpl never.
Local Arguments path_join : simpl never.
Local Arguments String.append : simpl never.

Variable self : LocalMediaStorage.

Lemma path_exists_false_inv (path : string) (w : world) :
  path_exists path w = false → files w !! path = None.
Proof.
  unfold path_exists. intros H%bool_decide_eq_false.
  by apply eq_None_not_Some.
Qed.

(** What [save] does on a free path, file by file. *)
Lemma save_free (key : string) (data : list byte) (w : world) :
  files w !! path_join (media_path self) key = None →
  ∃ w',
    save self key data w = (Ok tt, w') ∧
    files w' !! path_join (media_path self) key =
      Some {| content := data; mode := stored_mode self w |} ∧
    (∀ p, p ≠ path_join (media_path self) key →
          files w' !! p = files w !! p) ∧
    logged w' = logged w ∧ umask w' = umask w.
Proof.
  intros Hfree. unfold save, stored_mode.
  rewrite (path_exists_false _ _ Hfree).
  eexists. split; [reflexivity|].
  destruct (file_permissions self); simpl; repeat split.
  - by rewrite !lookup_alter_eq, lookup_insert_eq, Hfree.
  - intros p Hp.
    by rewrite !lookup_alter_ne, lookup_insert_ne by congruence.
  - by rewrite lookup_alter_eq, lookup_insert_eq, Hfree.
  - intros p Hp.
    by rewrite lookup_alter_ne, lookup_insert_ne by congruence.
Qed.

(** A successful [store_file], read backwards. *)
Lemma store_file_Ok_inv (uuid_ f : string) (data : list byte)
  (w w1 : world) (key : string) :
  store_file self uuid_ f data w = (Ok key, w1) →
  generate_file_id (storage self) uuid_ (path_name f) = Ok key ∧
  files w !! path_join (media_path self) key = None ∧
  files w1 !! path_join (media_path self) key =
    Some {| content := data; mode := stored_mode self w |} ∧
  (∀ p, p ≠ path_join (media_path self) key →
        files w1 !! p = files w !! p).
Proof.
  unfold store_file.
  destruct (generate_file_id (storage self) uuid_ (path_name f))
    as [k|e] eqn:Hk; [|discriminate].
  destruct (path_exists (path_join (media_path self) k) w) eqn:Hex.
  - unfold save. rewrite Hex. discriminate.
  - apply path_exists_false_inv in Hex.
    destruct (save_free k data w Hex) as (w' & -> & Hfile & Hframe & _).
    intros [= <- <-]. by repeat split.
Qed.

Lemma key_not_absolute (base : MediaStorage) (uuid_ f key : string) :
  generate_file_id base uuid_ f = Ok key →
  startswith (chr slash) key = false.
Proof.
  intros Hkey.
  apply generate_file_id_shape in Hkey
    as (name & ext & a & tail & Hname & _ & -> & _ & _ & _ & ->).
  destruct (path_name_cases f) as [Hempty|[_ Hslash]].
  { rewrite Hname in Hempty. discriminate Hempty. }
  rewrite Hname, app_cons, contains_slash_cons in Hslash.
  apply orb_false_elim in Hslash as [Ha _].
  destruct (kept_base_cons (path_name f) a tail) as [t ->].
  by rewrite app_cons, startswith_chr.
Qed.

Lemma path_join_inj (mp k1 k2 : string) :
  startswith (chr slash) k1 = false →
  startswith (chr slash) k2 = false →
  path_join mp k1 = path_join mp k2 → k1 = k2.
Proof.
  intros H1 H2. unfold path_join. rewrite H1, H2.
  destruct (negb (truthy mp) || endswith slash mp).
  - by intros ?%String.app_inj.
  - by intros ?%String.app_inj%String.app_inj.
Qed.


(** X12. [store_file] never changes or removes a file that is already
    there, whatever its outcome: refused name, collision or success. *)
Theorem X12_existing_files_kept (uuid_ f : string) (data : list byte)
  (w w' : world) (r : result string) (p : string) (old : file) :
  store_file self uuid_ f data w = (r, w') →
  files w !! p = Some old →
  files w' !! p = Some old.
Proof.
  intros Hstore Hold. destruct r as [key|e].
  - apply store_file_Ok_inv in Hstore as (_ & Hfree & _ & Hframe).
    rewrite Hframe; [exact Hold|]. intros ->. congruence.
  - unfold store_file in Hstore.
    destruct (generate_file_id (storage self) uuid_ (path_name f))
      as [k|e'] eqn:Hk.
    + destruct (path_exists (path_join (media_path self) k) w) eqn:Hex.
      * unfold save in Hstore. rewrite Hex in Hstore.
        injection Hstore as _ <-. exact Hold.
      * apply path_exists_false_inv in Hex.
        destruct (save_free k data w Hex) as (w1 & Hsave & _).
        rewrite Hsave in Hstore. discriminate.
    + injection Hstore as _ <-. exact Hold.
Qed.

(** X13. Storing the same name again under the same random id is a
    collision: the second call raises the I/O error and the file of the
    first call still holds the bytes of the first source. *)
Theorem X13_second_store_collides (uuid_ f : string)
  (data1 data2 : list byte) (w w1 : world) (key : string) :
  store_file self uuid_ f data1 w = (Ok key, w1) →
  ∃ w2,
    store_file self uuid_ f data2 w1 =
      (Raise (IOError "Unable to save the file"), w2) ∧
    content <$> files w2 !! path_join (media_path self) key = Some data1.
Proof.
  intros (Hkey & _ & Hfile & _)%store_file_Ok_inv.
  unfold store_file, save.
  rewrite Hkey, (path_exists_true _ _ _ Hfile).
  eexists. split; [reflexivity|]. simpl. by rewrite Hfile.
Qed.

(** X14. Two random ids keep two uploads of one name apart: after a
    first store, a second store of the same name under another id, on a
    path that is free, succeeds under a different key, and both files
    hold their own bytes. *)
Theorem X14_distinct_ids_coexist (u1 u2 f : string)
  (data1 data2 : list byte) (w w1 : world) (k1 k2 : string) :
  u1 ≠ u2 →
  store_file self u1 f data1 w = (Ok k1, w1) →
  generate_file_id (storage self) u2 (path_name f) = Ok k2 →
  files w !! path_join (media_path self) k2 = None →
  ∃ w2,
    store_file self u2 f data2 w1 = (Ok k2, w2) ∧
    k1 ≠ k2 ∧
    content <$> files w2 !! path_join (media_path self) k1 = Some data1 ∧
    content <$> files w2 !! path_join (media_path self) k2 = Some data2.
Proof.
  intros Hu (Hk1 & _ & Hfile1 & Hframe1)%store_file_Ok_inv Hk2 Hfree2.
  assert (k1 ≠ k2) as Hk.
  { intros ->. apply Hu.
    exact (generate_file_id_uuid_inj _ _ _ _ _ Hk1 Hk2). }
  assert (path_join (media_path self) k2 ≠ path_join (media_path self) k1)
    as Hpath.
  { intros Heq. apply Hk. symmetry.
    apply (path_join_inj (media_path self)); [..|exact Heq].
    - by apply key_not_absolute in Hk2.
    - by apply key_not_absolute in Hk1. }
  assert (files w1 !! path_join (media_path self) k2 = None) as Hfree.
  { by rewrite Hframe1. }
  destruct (save_free k2 data2 w1 Hfree) as (w2 & Hsave & Hfile2 & Hframe2 & _).
  exists w2. unfold store_file. rewrite Hk2, Hsave. split; [reflexivity|].
  split; [exact Hk|]. split.
  - rewrite Hframe2 by congruence. by rewrite Hfile1.
  - by rewrite Hfile2.
Qed.

(** X18. With [file_permissions] set to [None] no [chmod] takes place:
    a stored file keeps the bits that [open] gave it, [0o666] without
    the bits of the umask, so none of the bits masked by the umask is
    set on it. *)
Theorem X18_mode_left_to_umask (uuid_ f : string) (data : list byte)
  (w w' : world) (key : string) :
  file_permissions self = None →
  store_file self uuid_ f data w = (Ok key, w') →
  ∃ stored : file,
    files w' !! path_join (media_path self) key = Some stored ∧
    mode stored = Z.land (octal 6 6 6) (Z.lnot (umask w)) ∧
    Z.land (mode stored) (umask w) = 0%Z.
Proof.
  intros Hperm (_ & _ & Hfile & _)%store_file_Ok_inv.
  eexists. split; [exact Hfile|]. unfold stored_mode. rewrite Hperm. simpl.
  split; [reflexivity|].
  rewrite <- Z.land_assoc, (Z.land_comm (Z.lnot (umask w))).
  by rewrite Z.land_lnot_diag, Z.land_0_r.
Qed.

End LocalExtras.

(** ** More on reconciliation *)

Section ReconciliationExtras.

Variables db_keys disk_keys : list string.
Variable number_shown : Z.
Variable auto : bool.
Variable answer : string.

Lemma slice_to_prefix {A} (n : Z) (l : list A) :
  ∃ rest, l = (slice_to n l ++ rest)%list.
Proof.
  unfold slice_to. destruct (n <? 0)%Z; eexists;
    symmetry; apply List.firstn_skipn.
Qed.

Lemma slice_to_length {A} (n : Z) (l : list A) :
  length (slice_to n l) =
  if (n <? 0)%Z then (length l - Z.to_nat (- n))%nat
  else Nat.min (Z.to_nat n) (length l).
Proof.
  unfold slice_to. destruct (n <? 0)%Z; rewrite List.length_firstn; lia.
Qed.

(** X15. The operator is asked only when there is something to delete
    and [auto] is off: the prompt occurs in the run exactly then, so a
    run with [auto] set, or with nothing unused, never waits for input. *)
Theorem X15_prompt_only_when_needed (prompt : string) :
  Input prompt ∈
    delete_unused_files db_keys disk_keys number_shown auto answer ↔
  prompt = "Would you like to delete them? Enter y to confirm" ∧
  get_unused_file_keys db_keys disk_keys ≠ [] ∧
  auto = false.
Proof.
  unfold delete_unused_files.
  destruct (get_unused_file_keys db_keys disk_keys) as [|k l];
    simpl length; cbv iota.
  - split.
    + intros Hin. apply list_elem_of_singleton in Hin. discriminate.
    + by intros (_ & Hne & _).
  - split.
    + intros Hin.
      destruct auto, (String.eqb answer "y");
        repeat (apply elem_of_cons in Hin as [Hin|Hin];
                [try discriminate Hin|]);
        try (by apply elem_of_nil in Hin);
        injection Hin as ->; by repeat split.
    + intros (-> & _ & ->).
      repeat first [apply list_elem_of_here | apply list_elem_of_further].
Qed.

(** X17. When there are unused keys, the third line printed is a preview:
    the first keys of the unused list joined by newlines. A bound that
    is not negative shows at most that many keys; a negative bound
    leaves out that many keys from the end instead. *)
Theorem X17_preview :
  get_unused_file_keys db_keys disk_keys ≠ [] →
  ∃ shown rest : list string,
    get_unused_file_keys db_keys disk_keys = (shown ++ rest)%list ∧
    delete_unused_files db_keys disk_keys number_shown auto answer !! 2%nat
      = Some (Print (join newline shown)) ∧
    length shown =
      if (number_shown <? 0)%Z
      then (length (get_unused_file_keys db_keys disk_keys)
            - Z.to_nat (- number_shown))%nat
      else Nat.min (Z.to_nat number_shown)
             (length (get_unused_file_keys db_keys disk_keys)).
Proof.
  intros Hne. unfold delete_unused_files.
  set (unused := get_unused_file_keys db_keys disk_keys) in *.
  destruct (slice_to_prefix number_shown unused) as [rest Hrest].
  exists (slice_to number_shown unused), rest.
  split; [exact Hrest|]. split; [|apply slice_to_length].
  destruct unused as [|k l]; [done|]. reflexivity.
Qed.

End ReconciliationExtras.

(** ** Instances of the further properties *)

Lemma X1_witness :
  generate_file_id default_storage Uuid.test_uuid ".private_file.jpeg" =
  Raise (ValueError "File names must not start with a period.").
Proof. apply X1_hidden_file. reflexivity. Defined.

Lemma X2_witness :
  generate_file_id default_storage Uuid.test_uuid "/" =
    Raise (ValueError "The file has no extension.") ∧
  generate_file_id default_storage Uuid.test_uuid "uploads/README" =
    Raise (ValueError "The file has no extension.").
Proof. split; apply X2_missing_extension; reflexivity. Defined.

Lemma X3_witness :
  generate_file_id default_storage Uuid.test_uuid "/tmp/up/my poster.JPEG" =
  Ok "my poster-fd0125c7-8777-4976-83c1-81605d5ab155.JPEG".
Proof.
  apply (X3_accepts_valid_names default_storage Uuid.test_uuid
           "/tmp/up/my poster.JPEG" "my poster" "JPEG"); reflexivity.
Defined.

Lemma X4_witness :
  generate_file_id default_storage Uuid.test_uuid "setup.exe" =
  Raise (ValueError "This file type isn't allowed.").
Proof.
  apply (X4_extension_rejected default_storage Uuid.test_uuid
           "setup.exe" "setup" "exe"); reflexivity.
Defined.

Lemma X5_witness :
  generate_file_id (MediaBase.init (Some ["JPG"; "Png"]) None)
    Uuid.test_uuid "photo.pNG" =
  Ok "photo-fd0125c7-8777-4976-83c1-81605d5ab155.pNG".
Proof.
  apply (X5_extension_case_insensitive ["JPG"; "Png"] None Uuid.test_uuid
           "photo.pNG" "photo" "pNG" "Png"); try reflexivity.
  right. by left.
Defined.

Lemma X6_witness :
  (String.length "bulb-fd0125c7-8777-4976-83c1-81605d5ab155.jpg" ≤ 88 + 4)%nat.
Proof.
  apply (X6_key_length default_storage Uuid.test_uuid "bulb.jpg"
           "bulb-fd0125c7-8777-4976-83c1-81605d5ab155.jpg"
           (List.map lower ALLOWED_EXTENSIONS) 4).
  - reflexivity.
  - discriminate.
  - repeat (constructor; [simpl; lia|]). constructor.
  - reflexivity.
  - reflexivity.
Defined.

Lemma X7_witness :
  contains "/" "bulb-fd0125c7-8777-4976-83c1-81605d5ab155.jpg" = false ∧
  path_name "bulb-fd0125c7-8777-4976-83c1-81605d5ab155.jpg" =
    "bulb-fd0125c7-8777-4976-83c1-81605d5ab155.jpg" ∧
  path_name
    (path_join "/srv/piccolo-media"
       "bulb-fd0125c7-8777-4976-83c1-81605d5ab155.jpg") =
    "bulb-fd0125c7-8777-4976-83c1-81605d5ab155.jpg".
Proof.
  apply (X7_key_is_path_segment default_storage Uuid.test_uuid
           "../../etc/bulb.jpg"); reflexivity.
Defined.

Lemma X8_witness : Uuid.test_uuid = Uuid.test_uuid.
Proof.
  apply (X8_uuid_injective default_storage Uuid.test_uuid Uuid.test_uuid
           "bulb.jpg" "bulb-fd0125c7-8777-4976-83c1-81605d5ab155.jpg");
    reflexivity.
Defined.

Lemma X9_witness :
  generate_file_id default_storage Uuid.test_uuid (path_name "/tmp/a.png") =
    generate_file_id default_storage Uuid.test_uuid "/tmp/a.png" ∧
  generate_file_id default_storage Uuid.test_uuid (path_name "/") =
    Raise (ValueError "The file name can't be empty.") ∧
  generate_file_id default_storage Uuid.test_uuid "/" =
    Raise (ValueError "The file has no extension.").
Proof.
  split.
  - apply (X9_double_stripping default_storage Uuid.test_uuid "/tmp/a.png").
    discriminate.
  - apply (X9_double_stripping default_storage Uuid.test_uuid "/");
      reflexivity.
Defined.

Lemma X10_witness :
  all_chars
    (λ c, allowed_char ALLOWED_CHARACTERS c ||
          (Ascii.eqb c "-" || Uuid.is_hex c))
    "my poster-fd0125c7-8777-4976-83c1-81605d5ab155.jpg" = true.
Proof.
  apply (X10_key_characters default_storage Uuid.test_uuid "my poster.jpg");
    solve [reflexivity | discriminate].
Defined.


Lemma X12_witness :
  let old := {| MediaLocal.content := [x01]%byte;
                MediaLocal.mode := MediaLocal.octal 6 4 0 |} in
  let w := {| MediaLocal.files := {[ "/srv/piccolo-media/old.txt" := old ]};
              MediaLocal.umask := MediaLocal.octal 0 2 2;
              MediaLocal.logged := [] |} in
  MediaLocal.files
    (MediaLocal.store_file (MediaLocal.init_default "/srv/piccolo-media")
       Uuid.test_uuid "bulb.jpg" [x42; x4d]%byte w).2
    !! "/srv/piccolo-media/old.txt" = Some old.
Proof.
  intros old w.
  apply (X12_existing_files_kept
           (MediaLocal.init_default "/srv/piccolo-media")
           Uuid.test_uuid "bulb.jpg" [x42; x4d]%byte w _
           (MediaLocal.store_file
              (MediaLocal.init_default "/srv/piccolo-media")
              Uuid.test_uuid "bulb.jpg" [x42; x4d]%byte w).1).
  - apply surjective_pairing.
  - apply lookup_singleton_eq.
Defined.

Lemma X13_witness :
  let self := MediaLocal.init_default "/srv/piccolo-media" in
  let w1 := (MediaLocal.store_file self Uuid.test_uuid "bulb.jpg"
               [x42; x4d]%byte LocalPolicy.empty_world).2 in
  ∃ w2,
    MediaLocal.store_file self Uuid.test_uuid "bulb.jpg" [x00]%byte w1 =
      (Raise (IOError "Unable to save the file"), w2) ∧
    MediaLocal.content <$>
      MediaLocal.files w2 !!
        path_join "/srv/piccolo-media"
          "bulb-fd0125c7-8777-4976-83c1-81605d5ab155.jpg" =
      Some [x42; x4d]%byte.
Proof.
  intros self w1.
  apply (X13_second_store_collides self Uuid.test_uuid "bulb.jpg"
           [x42; x4d]%byte [x00]%byte LocalPolicy.empty_world w1).
  reflexivity.
Defined.

Lemma X14_witness :
  let self := MediaLocal.init_default "/srv/piccolo-media" in
  let w1 := (MediaLocal.store_file self Uuid.test_uuid "bulb.jpg"
               [x42; x4d]%byte LocalPolicy.empty_world).2 in
  ∃ w2,
    MediaLocal.store_file self LocalPolicy.other_uuid "bulb.jpg"
      [x00]%byte w1 =
      (Ok "bulb-3beac950-7721-46c9-9e7d-5e908ef51011.jpg", w2) ∧
    "bulb-fd0125c7-8777-4976-83c1-81605d5ab155.jpg" ≠
      "bulb-3beac950-7721-46c9-9e7d-5e908ef51011.jpg" ∧
    MediaLocal.content <$>
      MediaLocal.files w2 !!
        path_join "/srv/piccolo-media"
          "bulb-fd0125c7-8777-4976-83c1-81605d5ab155.jpg" =
      Some [x42; x4d]%byte ∧
    MediaLocal.content <$>
      MediaLocal.files w2 !!
        path_join "/srv/piccolo-media"
          "bulb-3beac950-7721-46c9-9e7d-5e908ef51011.jpg" =
      Some [x00]%byte.
Proof.
  intros self w1.
  apply (X14_distinct_ids_coexist self Uuid.test_uuid LocalPolicy.other_uuid
           "bulb.jpg" [x42; x4d]%byte [x00]%byte LocalPolicy.empty_world w1).
  - discriminate.
  - reflexivity.
  - reflexivity.
  - reflexivity.
Defined.

Lemma X15_witness :
  Input "Would you like to delete them? Enter y to confirm" ∈
    delete_unused_files ["a"] ["a"; "c"] 10 false "n".
Proof.
  apply (X15_prompt_only_when_needed ["a"] ["a"; "c"] 10 false "n").
  split; [reflexivity|]. split; [by vm_compute | reflexivity].
Defined.

Lemma X16_witness :
  path_name
    (MediaLocal.generate_file_url
       "bulb-fd0125c7-8777-4976-83c1-81605d5ab155.jpg"
       "https://example.com/media//") =
  "bulb-fd0125c7-8777-4976-83c1-81605d5ab155.jpg".
Proof.
  apply (X16_url_ends_with_key default_storage Uuid.test_uuid "bulb.jpg");
    reflexivity.
Defined.

Lemma X17_witness :
  ∃ shown rest : list string,
    get_unused_file_keys [] ["a"; "b"; "c"] = (shown ++ rest)%list ∧
    delete_unused_files [] ["a"; "b"; "c"] (-1) true "n" !! 2%nat =
      Some (Print (join newline shown)) ∧
    length shown =
      (length (get_unused_file_keys [] ["a"; "b"; "c"]) - 1)%nat.
Proof.
  apply (X17_preview [] ["a"; "b"; "c"] (-1) true "n"). by vm_compute.
Defined.

Lemma X18_witness :
  let self := MediaLocal.init "/srv/piccolo-media" None None None in
  let w' := (MediaLocal.store_file self Uuid.test_uuid "bulb.jpg"
               [x42; x4d]%byte LocalPolicy.empty_world).2 in
  ∃ stored : MediaLocal.file,
    MediaLocal.files w' !!
      path_join "/srv/piccolo-media"
        "bulb-fd0125c7-8777-4976-83c1-81605d5ab155.jpg" = Some stored ∧
    MediaLocal.mode stored =
      Z.land (MediaLocal.octal 6 6 6)
        (Z.lnot (MediaLocal.umask LocalPolicy.empty_world)) ∧
    Z.land (MediaLocal.mode stored)
      (MediaLocal.umask LocalPolicy.empty_world) = 0%Z.
Proof.
  intros self w'.
  apply (X18_mode_left_to_umask self Uuid.test_uuid "bulb.jpg"
           [x42; x4d]%byte LocalPolicy.empty_world w'
           "bulb-fd0125c7-8777-4976-83c1-81605d5ab155.jpg"); reflexivity.
Defined.
